(** * The portfolio page of src/App.js: wallet shim and image viewer

    The module has two parts that share nothing but the file:

    - [Shim]: [setupMetaMaskStub], the defensive stub around
      [window.ethereum], with the two closures it installs;
    - [Gallery]: the [App] component, reduced to what its handlers do: the
      [fullscreenImage] state cell, the tiles with their [onClick] and
      [onError] handlers, the overlay and the way a click bubbles through it.

    [ShimSpec] and [GallerySpec] hold the properties. *)

From Stdlib Require Import Ascii String DecimalString DecimalNat.
From stdpp Require Import gmap strings list.

(* ====================================================================== *)
(** ** The provider shim *)
(* ====================================================================== *)

Module Shim.

(** JavaScript values, as far as the shim can tell them apart. The shim only
    tests truthiness, reads the properties [method], [request] and [bind],
    compares with a string literal and calls functions; numbers are integers
    plus [NaN] (only their truthiness matters). The provider is reached
    through the single path [window.ethereum], so objects are held by value.

    Functions are the closures that can sit in [window.ethereum]: functions of
    the host page or of an extension ([Native], interpreted by the section
    variable [native] below), the three arrow functions of the stub, the
    wrapper with the [originalRequest] it captured, and [f.bind] for a
    function [f].

    A promise is represented by the way it settles. *)
#[warnings="-register-all"]
Inductive value : Type :=
| VUndefined
| VNull
| VBool (b : bool)
| VNum (n : Z)
| VNaN
| VStr (s : string)
| VArr (xs : list value)
| VObj (props : gmap string value)
| VFun (f : fn)
| VPromise (p : settlement)
with fn : Type :=
| Native (id : nat)
| StubRequest
| StubOn
| StubRemoveListener
| WrappedRequest (originalRequest : value)
| FunctionBind (target : fn)
with settlement : Type :=
| Fulfilled (v : value)
| Rejected (e : value)
| Pending.

(** What a synchronous call of a host function does. *)
Inductive completion : Type :=
| Normal (v : value)
| Throw (e : value).

(** Console output of the shim, in program order. *)
Inductive level : Type := LWarn | LInfo.

Record entry : Type := Entry {
  entry_level : level;
  entry_text : string;
  entry_data : option value
}.

(** The part of the global scope the shim touches. [window = None] is a
    context without a [window] global; [window = Some e] is a browser whose
    [window.ethereum] evaluates to [e] ([VUndefined] when the slot is
    missing). *)
Record env : Type := Env {
  window : option value;
  console : list entry
}.

Definition set_ethereum (e : value) (w : env) : env :=
  {| window := Some e; console := console w |}.

Definition log (x : entry) (w : env) : env :=
  {| window := window w; console := console w ++ [x] |}.

(** *** Computations: state, exceptions, and suspension at an [await] *)

Inductive result (A : Type) : Type :=
| Ok (a : A)
| Thrown (e : value)
| Suspended.
Arguments Ok {A} a.
Arguments Thrown {A} e.
Arguments Suspended {A}.

Definition M (A : Type) : Type := env -> result A * env.

Definition ret {A} (a : A) : M A := fun w => (Ok a, w).

Definition throw {A} (e : value) : M A := fun w => (Thrown e, w).

Definition bind {A B} (m : M A) (k : A -> M B) : M B := fun w =>
  match m w with
  | (Ok a, w') => k a w'
  | (Thrown e, w') => (Thrown e, w')
  | (Suspended, w') => (Suspended, w')
  end.

Notation "'let*' x ':=' m 'in' k" := (bind m (fun x => k))
  (at level 10, x name, m at level 100, k at level 200).
Notation "m ';;' k" := (bind m (fun _ => k))
  (at level 100, k at level 200, right associativity).

(** [try { body } catch (err) { handler err }] *)
Definition try_catch {A} (body : M A) (handler : value -> M A) : M A := fun w =>
  match body w with
  | (Thrown e, w') => handler e w'
  | r => r
  end.

Definition TypeError (message : string) : value :=
  VObj (<["name" := VStr "TypeError"]> (<["message" := VStr message]> ∅)).

Definition ReferenceError (message : string) : value :=
  VObj (<["name" := VStr "ReferenceError"]> (<["message" := VStr message]> ∅)).

Definition console_warn (text : string) (data : value) : M unit := fun w =>
  (Ok tt, log (Entry LWarn text (Some data)) w).

Definition console_info (text : string) : M unit := fun w =>
  (Ok tt, log (Entry LInfo text None) w).

(** *** Operators *)

(** ToBoolean. *)
Definition truthy (v : value) : bool :=
  match v with
  | VUndefined | VNull | VNaN => false
  | VBool b => b
  | VNum n => negb (n =? 0)%Z
  | VStr s => negb (String.eqb s "")
  | VArr _ | VObj _ | VFun _ | VPromise _ => true
  end.

(** [v.k]. Reading a property of [undefined] or [null] throws. An object
    answers from its properties; a function answers [bind] with
    Function.prototype.bind applied to itself. No built-in prototype has a
    property named [method] or [request], and none but the function one has
    [bind], so every other read the shim makes yields [undefined]. *)
Definition get_prop (v : value) (k : string) : M value :=
  match v with
  | VUndefined | VNull =>
      throw (TypeError ("Cannot read properties of undefined or null: " +:+ k))
  | VObj props => ret (default VUndefined (props !! k))
  | VFun f => if String.eqb k "bind" then ret (VFun (FunctionBind f)) else ret VUndefined
  | _ => ret VUndefined
  end.

(** [v === "literal"] *)
Definition strict_eq_string (v : value) (literal : string) : bool :=
  match v with
  | VStr s => String.eqb s literal
  | _ => false
  end.

(** [await v] inside an async function. A promise is waited for; any other
    value is the result as it is. An object that is no promise but has a
    callable [then] would be asked to settle by a call of that method, and
    what a method of the host page does with the two callbacks it is given
    is not part of this model: such objects are treated here as plain
    data, and the properties that would depend on the difference exclude
    them, see [thenable]. *)
Definition await (v : value) : M value :=
  match v with
  | VPromise (Fulfilled x) => ret x
  | VPromise (Rejected e) => throw e
  | VPromise Pending => fun w => (Suspended, w)
  | _ => ret v
  end.

(** Calling an async function: the body runs up to its end, its first throw
    or an [await] that never resumes, and the caller gets a promise. A body
    that returns a promise hands over that promise's settlement. *)
Definition async (body : M value) : M value := fun w =>
  match body w with
  | (Ok (VPromise p), w') => (Ok (VPromise p), w')
  | (Ok v, w') => (Ok (VPromise (Fulfilled v)), w')
  | (Thrown e, w') => (Ok (VPromise (Rejected e)), w')
  | (Suspended, w') => (Ok (VPromise Pending), w')
  end.

(** The two closing statements of both request closures (lines 24-26 and
    44-45):
    [if (args && args.method === "eth_requestAccounts") return [];
     return null;] *)
Definition fallback (args : value) : M value :=
  let* cond :=
    (if truthy args
     then let* m := get_prop args "method" in
          ret (strict_eq_string m "eth_requestAccounts")
     else ret false) in
  if (cond : bool) then ret (VArr []) else ret VNull.

Section Calls.

(** The functions of the host page: what calling function [id] on an
    argument does, with the receiver the shim calls it on. *)
Variable native : nat -> value -> completion.

Definition call_native (id : nat) (arg : value) : M value := fun w =>
  match native id arg with
  | Normal v => (Ok v, w)
  | Throw e => (Thrown e, w)
  end.

(** [f(arg)] for a function value [f]. *)
Fixpoint call_fn (f : fn) (arg : value) : M value :=
  match f with
  | Native id => call_native id arg
  | StubRequest =>
      (* async (args) => { console.warn(..., args); <fallback> } *)
      async
        (console_warn "[meta-stub] window.ethereum.request called but no MetaMask:" arg;;
         fallback arg)
  | StubOn => ret VUndefined
  | StubRemoveListener => ret VUndefined
  | WrappedRequest originalRequest =>
      (* async (args) => {
           try { return await originalRequest(args); }
           catch (err) { console.warn(..., err); <fallback> } } *)
      async
        (try_catch
           (let* r :=
              (match originalRequest with
               | VFun g => call_fn g arg
               | _ => throw (TypeError "originalRequest is not a function")
               end) in
            await r)
           (fun err =>
              console_warn "[meta-stub] Caught error from ethereum.request:" err;;
              fallback arg))
  | FunctionBind target => ret (VFun target)
  end.

(** [v(arg)] for any value [v]. *)
Definition call (v : value) (arg : value) : M value :=
  match v with
  | VFun f => call_fn f arg
  | _ => throw (TypeError "not a function")
  end.

(** Reading the global [window.ethereum]. *)
Definition read_ethereum : M value := fun w =>
  match window w with
  | Some e => (Ok e, w)
  | None => (Thrown (ReferenceError "window is not defined"), w)
  end.

(** [window.ethereum = v] *)
Definition write_ethereum (v : value) : M unit := fun w =>
  match window w with
  | Some _ => (Ok tt, set_ethereum v w)
  | None => (Thrown (ReferenceError "window is not defined"), w)
  end.

(** [window.ethereum.request = v]. The module is strict code, so the
    assignment throws on [undefined], [null] and primitives. Arrays,
    functions and promises would take the new property; they are held
    without own properties here and the shim never gets to assign on them
    (their [request] reads as [undefined]), so that case throws as well. *)
Definition assign_request (v : value) : M unit :=
  let* eth := read_ethereum in
  match eth with
  | VObj props => write_ethereum (VObj (<["request" := v]> props))
  | _ => throw (TypeError "Cannot create property 'request'")
  end.

(** The object literal of lines 18-31. *)
Definition stub : value :=
  VObj (<["isMetaMask" := VBool false]>
       (<["request" := VFun StubRequest]>
       (<["on" := VFun StubOn]>
       (<["removeListener" := VFun StubRemoveListener]> ∅)))).

(** The body of the [try] block, lines 16-48. *)
Definition install : M unit :=
  let* eth := read_ethereum in
  if negb (truthy eth) then
    write_ethereum stub;;
    console_info "[meta-stub] Installed safe window.ethereum stub (no MetaMask detected)."
  else
    let* eth := read_ethereum in
    let* req := get_prop eth "request" in
    if truthy req then
      (* const originalRequest = window.ethereum.request.bind(window.ethereum); *)
      let* eth := read_ethereum in
      let* req := get_prop eth "request" in
      let* bound := get_prop req "bind" in
      let* this := read_ethereum in
      let* originalRequest := call bound this in
      assign_request (VFun (WrappedRequest originalRequest))
    else ret tt.

Definition setupMetaMaskStub : M unit := fun w =>
  match window w with
  | None => (Ok tt, w)                       (* typeof window === "undefined" *)
  | Some _ =>
      try_catch install
        (fun err => console_warn "[meta-stub] Failed to setup MetaMask stub:" err) w
  end.

(** Line 56: [if (typeof window !== "undefined") setupMetaMaskStub();] *)
Definition module_init : M unit := fun w =>
  match window w with
  | Some _ => setupMetaMaskStub w
  | None => (Ok tt, w)
  end.

End Calls.

(** *** Sample environments *)

(** A host page with three functions: 0 throws, 1 returns a promise that
    rejects, every other one returns [null]. *)
Definition sample_host (id : nat) (arg : value) : completion :=
  match id with
  | 0 => Throw (VStr "User rejected the request")
  | 1 => Normal (VPromise (Rejected (VStr "Failed to connect to MetaMask")))
  | _ => Normal VNull
  end.

(** [{ request: <function 0> }] *)
Definition throwing_provider : gmap string value :=
  <["request" := VFun (Native 0)]> ∅.

(** [{ request: "soon" }]: a truthy [request] that is not callable. *)
Definition broken_provider : value :=
  VObj (<["request" := VStr "soon"]> ∅).

(** [{ isMetaMask: true }]: a provider without [request]. *)
Definition silent_provider : value :=
  VObj (<["isMetaMask" := VBool true]> ∅).

(** [{ method: "eth_requestAccounts" }] and [{ method: "eth_chainId" }] *)
Definition accounts_request : value :=
  VObj (<["method" := VStr "eth_requestAccounts"]> ∅).

Definition chain_request : value :=
  VObj (<["method" := VStr "eth_chainId"]> ∅).

(** *** Vocabulary of the properties *)

(** [args] is an object whose [method] property is the string [m]. *)
Definition has_method (args : value) (m : string) : Prop :=
  ∃ props, args = VObj props ∧ props !! "method" = Some (VStr m).

(** [v] is the documented fallback for the argument bundle [args]: an empty
    array for an account request, [null] for everything else. *)
Definition is_fallback_for (args v : value) : Prop :=
  (has_method args "eth_requestAccounts" → v = VArr []) ∧
  (¬ has_method args "eth_requestAccounts" → v = VNull).

(** Calling [f] on [args] in [w] raises [e] and leaves [w']: either the call
    throws, or it returns a promise that rejects. *)
Definition raises (native : nat → value → completion)
    (f : fn) (args : value) (w : env) (e : value) (w' : env) : Prop :=
  call_fn native f args w = (Thrown e, w') ∨
  call_fn native f args w = (Ok (VPromise (Rejected e)), w').

(** The entries the shim writes. *)
Definition warn_no_metamask (args : value) : entry :=
  Entry LWarn "[meta-stub] window.ethereum.request called but no MetaMask:" (Some args).

Definition warn_caught (err : value) : entry :=
  Entry LWarn "[meta-stub] Caught error from ethereum.request:" (Some err).

Definition warn_setup_failed (err : value) : entry :=
  Entry LWarn "[meta-stub] Failed to setup MetaMask stub:" (Some err).

Definition info_installed : entry :=
  Entry LInfo "[meta-stub] Installed safe window.ethereum stub (no MetaMask detected)." None.

(** A computation is synchronous when it never stops at an [await]: it
    ends by returning or by throwing. *)
Definition sync {A} (m : M A) : Prop := ∀ w, (m w).1 ≠ Suspended.

(** *** Vocabulary for the wrapper *)

(** No JavaScript promise fulfils with a promise: resolving with a promise
    adopts its settlement. [flat v] excludes the one shape of [value] that
    stands for no JavaScript value. *)
Definition flat (v : value) : Prop :=
  match v with
  | VPromise (Fulfilled (VPromise _)) => False
  | _ => True
  end.

(** [v] is not a promise. *)
Definition plain (v : value) : Prop :=
  match v with
  | VPromise _ => False
  | _ => True
  end.

(** [v] is an object with a callable [then], which [await] would call. *)
Definition thenable (v : value) : Prop :=
  ∃ props g, v = VObj props ∧ props !! "then" = Some (VFun g).

(** How the promise of [async () => await v] settles. *)
Definition settlement_of (v : value) : settlement :=
  match v with
  | VPromise p => p
  | _ => Fulfilled v
  end.

(** A promise that is pending or fulfilled with a value that is not a
    promise: the call that returned it has not raised. *)
Definition quiet (p : settlement) : Prop :=
  match p with
  | Fulfilled v => plain v
  | Rejected _ => False
  | Pending => True
  end.

(** [{ isMetaMask: true, chainId: "0x1", request: <function 2> }] *)
Definition working_provider : gmap string value :=
  <["isMetaMask" := VBool true]>
    (<["chainId" := VStr "0x1"]> (<["request" := VFun (Native 2)]> ∅)).

End Shim.

(* ====================================================================== *)
(** ** The gallery view *)
(* ====================================================================== *)

Module Gallery.

(** *** Values and the heap

    The [fullscreenImage] cell holds [null] or an object. A catalogue tile
    passes the catalogue's own object to the setter, a section tile builds a
    new object on every click, so objects live in a heap and the cell holds a
    reference. Nothing in the component writes to an object after it is
    built; the heap only grows. *)

Definition loc := nat.

Inductive val : Type :=
| Null
| Undefined
| Num (n : nat)
| Str (s : string)
| Ref (l : loc).

Definition truthy (v : val) : bool :=
  match v with
  | Null | Undefined => false
  | Num n => negb (Nat.eqb n 0)
  | Str s => negb (String.eqb s "")
  | Ref _ => true
  end.

(** [new] object: the reference and the grown heap. *)
Definition alloc (o : gmap string val) (h : list (gmap string val))
    : list (gmap string val) * val :=
  (h ++ [o], Ref (length h)).

Fixpoint alloc_all (os : list (gmap string val)) (h : list (gmap string val))
    : list (gmap string val) * list val :=
  match os with
  | [] => (h, [])
  | o :: rest =>
      let '(h1, r) := alloc o h in
      let '(h2, rs) := alloc_all rest h1 in
      (h2, r :: rs)
  end.

(** [v.k] for an object reference [v]; a missing property reads as
    [undefined]. The component reads properties of [item] and of a truthy
    [fullscreenImage] only, both objects. *)
Definition field (h : list (gmap string val)) (v : val) (k : string) : val :=
  match v with
  | Ref l =>
      match h !! l with
      | Some o => default Undefined (o !! k)
      | None => Undefined
      end
  | _ => Undefined
  end.

(** Decimal digits of a number, as a template literal prints it. *)
Definition string_of_nat (n : nat) : string :=
  NilEmpty.string_of_uint (Nat.to_uint n).

(** [`${v}`] *)
Definition to_string (v : val) : string :=
  match v with
  | Null => "null"
  | Undefined => "undefined"
  | Num n => string_of_nat n
  | Str s => s
  | Ref _ => "[object Object]"
  end.

(** *** encodeURIComponent

    Strings are sequences of bytes, read as UTF-8: every byte that is not
    an unreserved character is written as a percent sign and two upper-case
    hexadecimal digits. *)

Definition unreserved (c : ascii) : bool :=
  let n := nat_of_ascii c in
  ((65 <=? n)%nat && (n <=? 90)%nat) || ((97 <=? n)%nat && (n <=? 122)%nat)
  || ((48 <=? n)%nat && (n <=? 57)%nat)
  || existsb (Ascii.eqb c) (list_ascii_of_string "-_.!~*'()").

Definition hex_digit (n : nat) : ascii :=
  nth n (list_ascii_of_string "0123456789ABCDEF") "0"%char.

Fixpoint encodeURIComponent (s : string) : string :=
  match s with
  | EmptyString => EmptyString
  | String c rest =>
      if unreserved c then String c (encodeURIComponent rest)
      else
        let n := nat_of_ascii c in
        String "%"%char (String (hex_digit (n / 16)) (String (hex_digit (n mod 16))
          (encodeURIComponent rest)))
  end.

(** *** The placeholder graphics of the [onError] handlers *)

(** Lines 87, 195, 229 and 267: the 600 by 800 template around a label. *)
Definition svg_600x800 (label : string) : string :=
  "<svg xmlns='http://www.w3.org/2000/svg' viewBox='0 0 600 800'><rect width='600' height='800' fill='%23262224'/><text x='50%' y='50%' dominant-baseline='middle' text-anchor='middle' fill='white' fill-opacity='0.5' font-family='Inter, Helvetica Neue, Arial, sans-serif' font-size='28'>"
  +:+ label +:+ "</text></svg>".

(** Line 314: the 100 by 100 template of the tools. *)
Definition svg_100x100 (label : string) : string :=
  "<svg xmlns='http://www.w3.org/2000/svg' viewBox='0 0 100 100'><rect width='100' height='100' fill='%23262224'/><text x='50%' y='50%' dominant-baseline='middle' text-anchor='middle' fill='white' fill-opacity='0.5' font-family='Inter, Helvetica Neue, Arial, sans-serif' font-size='12'>"
  +:+ label +:+ "</text></svg>".

(** [`data:image/svg+xml;utf8,${encodeURIComponent(svg)}`] *)
Definition data_uri (svg : string) : string :=
  "data:image/svg+xml;utf8," +:+ encodeURIComponent svg.

(** *** Handlers

    The closures of the JSX, with what each one captured. *)

Inductive handler : Type :=
| SetFullscreenImage (v : val)
    (* () => setFullscreenImage(item)  and  () => setFullscreenImage(null) *)
| SetFullscreenLiteral (image caption : string)
    (* () => setFullscreenImage({ image: `...`, caption: `...` }) *)
| StopPropagation.
    (* (e) => e.stopPropagation() *)

Inductive error_handler : Type :=
| PlaceholderOfItem (item : val)
    (* e.target.src = data URI of the 600x800 template with `Image ${item.id}` *)
| PlaceholderOf (svg : string).
    (* e.target.src = data URI of a template with a fixed label *)

Record tile : Type := Tile {
  tile_src : val;
  tile_alt : val;
  tile_onClick : handler;
  tile_onError : error_handler
}.

Record overlay : Type := Overlay {
  backdrop_onClick : handler;
  close_onClick : handler;
  image_src : val;
  image_alt : val;
  image_onClick : handler;
  caption_text : val
}.

(** What one call of the component returns, as far as events can reach it:
    the tiles in document order and the modal, if any. *)
Record view : Type := View {
  tiles : list tile;
  modal : option overlay
}.

(** *** The component *)

(** Lines 69-73. *)
Definition items : list (gmap string val) :=
  [ {[ "id" := Num 1; "caption" := Str "porsche 991 poster";
       "image" := Str "images/porsche.png" ]};
    {[ "id" := Num 2; "caption" := Str "porsche 991 poster";
       "image" := Str "images/porsche 2.jpg" ]} ].

(** Lines 75-99. *)
Definition Placeholder (h : list (gmap string val)) (item : val) : tile :=
  {| tile_src := field h item "image";
     tile_alt := field h item "caption";
     tile_onClick := SetFullscreenImage item;
     tile_onError := PlaceholderOfItem item |}.

(** Lines 182-208. *)
Definition cat_tile (idx : nat) (img : string) : tile :=
  {| tile_src := Str ("images/Cat in a Box/" +:+ img);
     tile_alt := Str ("Cat in a Box " +:+ string_of_nat (idx + 1));
     tile_onClick :=
       SetFullscreenLiteral ("images/Cat in a Box/" +:+ img)
                            ("Cat in a Box - Design " +:+ string_of_nat (idx + 1));
     tile_onError := PlaceholderOf (svg_600x800 "Cat in a Box") |}.

(** Lines 216-242. *)
Definition chai_tile (idx : nat) (img : string) : tile :=
  {| tile_src := Str ("images/Chai Mahal/" +:+ img);
     tile_alt := Str ("Chai Mahal " +:+ string_of_nat (idx + 1));
     tile_onClick :=
       SetFullscreenLiteral ("images/Chai Mahal/" +:+ img)
                            ("Chai Mahal - Design " +:+ string_of_nat (idx + 1));
     tile_onError := PlaceholderOf (svg_600x800 "Chai Mahal") |}.

(** Lines 250-280. *)
Definition harvest_tile (idx : nat) (img : string) : tile :=
  {| tile_src := Str ("images/Harvest Connect/" +:+ img);
     tile_alt := Str ("Harvest Connect " +:+ string_of_nat (idx + 1));
     tile_onClick :=
       SetFullscreenLiteral ("images/Harvest Connect/" +:+ img)
                            ("Harvest Connect - Screen " +:+ string_of_nat (idx + 1));
     tile_onError := PlaceholderOf (svg_600x800 "Harvest Connect") |}.

(** Lines 298-327. *)
Definition tools_tile (idx : nat) (img : string) : tile :=
  {| tile_src := Str ("images/tools/" +:+ img);
     tile_alt := Str ("Tool " +:+ string_of_nat (idx + 1));
     tile_onClick :=
       SetFullscreenLiteral ("images/tools/" +:+ img)
                            ("tool " +:+ string_of_nat (idx + 1));
     tile_onError := PlaceholderOf (svg_100x100 "Tool") |}.

(** The tiles whose handlers capture nothing from the heap. *)
Definition section_tiles : list tile :=
  imap cat_tile ["1.png"; "2.png"; "3.png"; "4.png"; "5.png"]
   ++ imap chai_tile ["w1.png"; "w2.png"; "w3.png"; "w4.png"; "w5.png"; "w6.png"; "w7.png"]
   ++ imap harvest_tile
        ["Screenshot 2025-08-15 151613.png";
         "Screenshot 2025-08-15 151629.png";
         "Screenshot 2025-08-15 151703.png"]
   ++ imap tools_tile ["download  (2).png"; "download (3).jpg"].

(** Lines 348-377: [{fullscreenImage && ( ... )}] *)
Definition modal_of (h : list (gmap string val)) (fullscreenImage : val) : option overlay :=
  if truthy fullscreenImage then
    Some {| backdrop_onClick := SetFullscreenImage Null;
            close_onClick := SetFullscreenImage Null;
            image_src := field h fullscreenImage "image";
            image_alt := field h fullscreenImage "caption";
            image_onClick := StopPropagation;
            caption_text := field h fullscreenImage "caption" |}
  else None.

(** One call of [App] with the current value of the state cell: the
    catalogue is built anew, then the tree. *)
Definition App (h : list (gmap string val)) (fullscreenImage : val)
    : list (gmap string val) * view :=
  let '(h1, refs) := alloc_all items h in
  (h1, {| tiles := (Placeholder h1 <$> refs) ++ section_tiles;
          modal := modal_of h1 fullscreenImage |}).

(** *** Events *)

(** Where a click lands. A click inside a tile (on its image or on its
    hover layer) reaches the tile's handler, the only one on its way up.
    In the modal the handlers sit on the backdrop, on the close button and
    on the enlarged image; the caption has none of its own. *)
Inductive target : Type :=
| OnTile (i : nat)
| OnBackdrop
| OnCloseButton
| OnEnlargedImage
| OnCaption.

Inductive event : Type :=
| Click (t : target)
| ImgError (i : nat).

(** The handlers a click meets, from the target up to the root. *)
Definition propagation_path (v : view) (t : target) : list handler :=
  match t with
  | OnTile i =>
      match tiles v !! i with
      | Some tl => [tile_onClick tl]
      | None => []
      end
  | OnBackdrop =>
      match modal v with
      | Some o => [backdrop_onClick o]
      | None => []
      end
  | OnCloseButton =>
      match modal v with
      | Some o => [close_onClick o; backdrop_onClick o]
      | None => []
      end
  | OnEnlargedImage =>
      match modal v with
      | Some o => [image_onClick o; backdrop_onClick o]
      | None => []
      end
  | OnCaption =>
      match modal v with
      | Some o => [backdrop_onClick o]
      | None => []
      end
  end.

(** A handler runs on the heap and on the update queued for the state cell
    so far; it says whether propagation stops. *)
Definition run_handler (hd : handler) (h : list (gmap string val)) (queued : option val)
    : list (gmap string val) * option val * bool :=
  match hd with
  | SetFullscreenImage v => (h, Some v, false)
  | SetFullscreenLiteral image caption =>
      let '(h1, r) := alloc {[ "image" := Str image; "caption" := Str caption ]} h in
      (h1, Some r, false)
  | StopPropagation => (h, queued, true)
  end.

Fixpoint bubble (path : list handler) (h : list (gmap string val)) (queued : option val)
    : list (gmap string val) * option val :=
  match path with
  | [] => (h, queued)
  | hd :: rest =>
      let '(h1, q1, stop) := run_handler hd h queued in
      if stop then (h1, q1) else bubble rest h1 q1
  end.

(** The [src] an error handler assigns. *)
Definition error_src (h : list (gmap string val)) (eh : error_handler) : string :=
  match eh with
  | PlaceholderOfItem item =>
      data_uri (svg_600x800 ("Image " +:+ to_string (field h item "id")))
  | PlaceholderOf svg => data_uri svg
  end.

(** The page: heap, state cell, the tree of the last call of [App], and the
    [src] attribute each tile image currently has in the document. An
    error handler assigns it; a new call of [App] resets it for the
    catalogue tiles only, see [remount]. *)
Record page : Type := Page {
  heap : list (gmap string val);
  fullscreenImage : val;
  screen : view;
  img_src : list val
}.

Definition mount : page :=
  let '(h, v) := App [] Null in
  {| heap := h; fullscreenImage := Null; screen := v;
     img_src := tile_src <$> tiles v |}.

(** What a new call of [App] does to the images in the document.
    [Placeholder] is declared inside [App] (line 75), so every call makes a
    new component: the catalogue tiles of the previous tree are unmounted
    and new ones mounted, whose images start again from [item.image]. The
    section tiles are plain elements under stable keys with the same [src]
    prop as before; their images stay in the document as they are. *)
Definition remount (scr : view) (srcs : list val) : list val :=
  (tile_src <$> take (length items) (tiles scr)) ++ drop (length items) srcs.

Definition step (p : page) (ev : event) : page :=
  match ev with
  | Click t =>
      match bubble (propagation_path (screen p) t) (heap p) None with
      | (h1, Some v) =>
          (* the setter was called: the cell takes the last value, [App] runs again *)
          let '(h2, scr) := App h1 v in
          {| heap := h2; fullscreenImage := v; screen := scr;
             img_src := remount scr (img_src p) |}
      | (_, None) => p
      end
  | ImgError i =>
      match tiles (screen p) !! i with
      | Some tl =>
          {| heap := heap p; fullscreenImage := fullscreenImage p; screen := screen p;
             img_src := <[i := Str (error_src (heap p) (tile_onError tl))]> (img_src p) |}
      | None => p
      end
  end.

Definition run (evs : list event) : page := foldl step mount evs.

(** *** Vocabulary of the properties *)

(** The selection state of section 4.2, read off the page as the modal
    reads it. *)
Inductive selection : Type :=
| Idle
| Viewing (image caption : val).

Definition selection_of (p : page) : selection :=
  if truthy (fullscreenImage p)
  then Viewing (field (heap p) (fullscreenImage p) "image")
               (field (heap p) (fullscreenImage p) "caption")
  else Idle.

(** Image path and caption of every tile, in document order. *)
Definition declared_tiles : list (string * string) :=
  [ ("images/porsche.png", "porsche 991 poster");
    ("images/porsche 2.jpg", "porsche 991 poster");
    ("images/Cat in a Box/1.png", "Cat in a Box - Design 1");
    ("images/Cat in a Box/2.png", "Cat in a Box - Design 2");
    ("images/Cat in a Box/3.png", "Cat in a Box - Design 3");
    ("images/Cat in a Box/4.png", "Cat in a Box - Design 4");
    ("images/Cat in a Box/5.png", "Cat in a Box - Design 5");
    ("images/Chai Mahal/w1.png", "Chai Mahal - Design 1");
    ("images/Chai Mahal/w2.png", "Chai Mahal - Design 2");
    ("images/Chai Mahal/w3.png", "Chai Mahal - Design 3");
    ("images/Chai Mahal/w4.png", "Chai Mahal - Design 4");
    ("images/Chai Mahal/w5.png", "Chai Mahal - Design 5");
    ("images/Chai Mahal/w6.png", "Chai Mahal - Design 6");
    ("images/Chai Mahal/w7.png", "Chai Mahal - Design 7");
    ("images/Harvest Connect/Screenshot 2025-08-15 151613.png", "Harvest Connect - Screen 1");
    ("images/Harvest Connect/Screenshot 2025-08-15 151629.png", "Harvest Connect - Screen 2");
    ("images/Harvest Connect/Screenshot 2025-08-15 151703.png", "Harvest Connect - Screen 3");
    ("images/tools/download  (2).png", "tool 1");
    ("images/tools/download (3).jpg", "tool 2") ].

(** The text each tile's placeholder graphic shows. *)
Definition placeholder_labels : list string :=
  ["Image 1"; "Image 2"]
  ++ replicate 5 "Cat in a Box" ++ replicate 7 "Chai Mahal"
  ++ replicate 3 "Harvest Connect" ++ replicate 2 "Tool".

(** [s] begins with [sub]; [sub] occurs in [s]. *)
Fixpoint starts_with (s sub : string) {struct sub} : bool :=
  match sub with
  | EmptyString => true
  | String a sub' =>
      match s with
      | EmptyString => false
      | String b s' => Ascii.eqb a b && starts_with s' sub'
      end
  end.

Fixpoint contains (s sub : string) : bool :=
  starts_with s sub ||
  match s with
  | EmptyString => false
  | String _ rest => contains rest sub
  end.

(** Reading a percent-encoded payload back, as the browser does with the
    data URI. *)
Definition hex_value (c : ascii) : option nat :=
  let n := nat_of_ascii c in
  if (48 <=? n)%nat && (n <=? 57)%nat then Some (n - 48)
  else if (65 <=? n)%nat && (n <=? 70)%nat then Some (n - 55)
  else if (97 <=? n)%nat && (n <=? 102)%nat then Some (n - 87)
  else None.

Fixpoint percent_decode (s : string) : option string :=
  match s with
  | EmptyString => Some EmptyString
  | String c rest =>
      if Ascii.eqb c "%"%char then
        match rest with
        | String a (String b rest') =>
            match hex_value a, hex_value b with
            | Some x, Some y =>
                String (ascii_of_nat (16 * x + y)) <$> percent_decode rest'
            | _, _ => None
            end
        | _ => None
        end
      else String c <$> percent_decode rest
  end.

(** The two catalogue tiles of a call of [App] that starts on heap [h0]:
    the catalogue objects sit right after [h0]. *)
Definition item_tiles (h0 : list (gmap string val)) : list tile :=
  [ Tile (Str "images/porsche.png") (Str "porsche 991 poster")
         (SetFullscreenImage (Ref (length h0 + 0))) (PlaceholderOfItem (Ref (length h0 + 0)));
    Tile (Str "images/porsche 2.jpg") (Str "porsche 991 poster")
         (SetFullscreenImage (Ref (length h0 + 1))) (PlaceholderOfItem (Ref (length h0 + 1))) ].

(** Location [l] of heap [h] holds what a click on tile [i] selects: for a
    section tile the object literal of its handler, for a catalogue tile the
    catalogue object a call of [App] allocated. *)
Definition carries (h : list (gmap string val)) (l : loc) (i : nat) : Prop :=
  ∃ path cap, declared_tiles !! i = Some (path, cap) ∧
    ((2 ≤ i ∧ h !! l = Some {[ "image" := Str path; "caption" := Str cap ]})
     ∨ (i < 2
        ∧ h !! l = Some {[ "id" := Num (i + 1); "caption" := Str cap; "image" := Str path ]}
        ∧ ∃ h0, h0 ++ items `prefix_of` h ∧ l = length h0 + i)).

(** What holds of the page between events: heap and tree come from the last
    call of [App], and the state cell is [null] or refers to the data of a
    tile. *)
Definition consistent (p : page) : Prop :=
  (∃ h0, heap p = h0 ++ items
         ∧ screen p = {| tiles := item_tiles h0 ++ section_tiles;
                         modal := modal_of (h0 ++ items) (fullscreenImage p) |})
  ∧ (fullscreenImage p = Null ∨ ∃ l i, fullscreenImage p = Ref l ∧ carries (heap p) l i).

(** The targets whose click reaches the backdrop handler. *)
Definition dismissing (t : target) : Prop :=
  t = OnBackdrop ∨ t = OnCloseButton ∨ t = OnCaption.

(** *** More of the page *)

(** Line 132: the placeholder of the profile picture in the header; its
    text is fixed. *)
Definition svg_profile : string :=
  "<svg xmlns='http://www.w3.org/2000/svg' viewBox='0 0 100 100'><circle cx='50' cy='50' r='50' fill='%23262224'/><text x='50%' y='50%' dominant-baseline='middle' text-anchor='middle' fill='white' fill-opacity='0.5' font-family='Inter, Helvetica Neue, Arial, sans-serif' font-size='14'>Profile</text></svg>".

(** Lines 126-135: the [onError] handler of the profile picture. *)
Definition profile_onError : error_handler := PlaceholderOf svg_profile.

(** A character that may stand in a URI component as it is, or the percent
    sign of an escape. *)
Definition uri_safe (c : ascii) : Prop :=
  unreserved c = true ∨ c = "%"%char.

(** The [src] the error handler of tile [i] assigns on the freshly mounted
    page, if there is a tile [i]. *)
Definition placeholder_at (i : nat) : option string :=
  (λ tl, error_src (heap mount) (tile_onError tl)) <$> tiles (screen mount) !! i.

(** The markup of each tile's placeholder, in document order: the 600 by
    800 template around the tile's label for the catalogue and the first
    three sections, the 100 by 100 one for the tools. *)
Definition placeholder_svgs : list string :=
  (svg_600x800 <$> take 17 placeholder_labels)
  ++ (svg_100x100 <$> drop 17 placeholder_labels).

(** The [src] of the two catalogue images as [Placeholder] mounts them. *)
Definition catalogue_srcs : list val :=
  [Str "images/porsche.png"; Str "images/porsche 2.jpg"].

(** A click on [t] reaches a handler that calls the setter, so that [App]
    runs again. *)
Definition rerenders (p : page) (t : target) : bool :=
  match bubble (propagation_path (screen p) t) (heap p) None with
  | (_, Some _) => true
  | (_, None) => false
  end.

(** The page with another list of image sources. *)
Definition with_img_src (p : page) (srcs : list val) : page :=
  {| heap := heap p; fullscreenImage := fullscreenImage p; screen := screen p;
     img_src := srcs |}.

End Gallery.

(* ====================================================================== *)
(** ** Properties of the provider shim

    Property reads are reads of plain data properties and [console] calls
    return: accessors, proxies and a replaced [console] are outside the
    value model above. *)
(* ====================================================================== *)

Module ShimSpec.
Import Shim.

Lemma fallback_total (args : value) (w : env) :
  ∃ v, fallback args w = (Ok v, w) ∧ is_fallback_for args v.
Proof.
  unfold fallback, is_fallback_for, has_method, bind.
  destruct args as [| |b|n| |s|xs|props|f|p]; simpl.
  all: try (eexists; split; [reflexivity|];
            split; [intros (? & ? & ?); discriminate | reflexivity]).
  - destruct b; simpl; eexists; (split; [reflexivity|]);
      (split; [intros (? & ? & ?); discriminate | reflexivity]).
  - destruct (negb (n =? 0)%Z); simpl; eexists; (split; [reflexivity|]);
      (split; [intros (? & ? & ?); discriminate | reflexivity]).
  - destruct (negb (String.eqb s "")); simpl; eexists; (split; [reflexivity|]);
      (split; [intros (? & ? & ?); discriminate | reflexivity]).
  - unfold ret. destruct (props !! "method") as [m|] eqn:Hm; simpl.
    + destruct m as [| |b|n| |s|xs|props'|f|p]; simpl;
        try (eexists; split; [reflexivity|];
             split; [intros (? & [= <-] & ?); congruence | reflexivity]).
      destruct (String.eqb s "eth_requestAccounts") eqn:Hs; simpl.
      * apply String.eqb_eq in Hs as ->.
        eexists; split; [reflexivity|]. split; [reflexivity|].
        intros []. by exists props.
      * apply String.eqb_neq in Hs.
        eexists; split; [reflexivity|].
        split; [intros (? & [= <-] & ?); congruence | reflexivity].
    + eexists; split; [reflexivity|].
      split; [intros (? & [= <-] & ?); congruence | reflexivity].
Qed.

Lemma fallback_shape (args : value) (w : env) (v : value) (w' : env) :
  fallback args w = (Ok v, w') → v = VArr [] ∨ v = VNull.
Proof.
  unfold fallback, bind.
  match goal with |- context [match ?c w with _ => _ end] =>
    destruct (c w) as [[[]|e|] w1]; simpl end.
  - intros [= <- _]. by left.
  - intros [= <- _]. by right.
  - discriminate.
  - discriminate.
Qed.

Create HintDb sync discriminated.

Lemma sync_ret {A} (a : A) : sync (ret a).
Proof. by intros w. Qed.

Lemma sync_throw {A} (e : value) : sync (@throw A e).
Proof. by intros w. Qed.

Lemma sync_bind {A B} (m : M A) (k : A → M B) :
  sync m → (∀ a, sync (k a)) → sync (bind m k).
Proof.
  intros Hm Hk w. unfold bind. specialize (Hm w).
  destruct (m w) as [[a|e|] w']; simpl in *; [apply Hk | done | done].
Qed.

Lemma sync_try_catch {A} (body : M A) (handler : value → M A) :
  sync body → (∀ e, sync (handler e)) → sync (try_catch body handler).
Proof.
  intros Hb Hh w. unfold try_catch. specialize (Hb w).
  destruct (body w) as [[a|e|] w']; simpl in *; [done | apply Hh | done].
Qed.

Lemma sync_async (body : M value) : sync (async body).
Proof.
  intros w. unfold async.
  by destruct (body w) as [[[]|e|] w'].
Qed.

Lemma sync_console_warn text data : sync (console_warn text data).
Proof. by intros w. Qed.

Lemma sync_console_info text : sync (console_info text).
Proof. by intros w. Qed.

Lemma sync_get_prop v k : sync (get_prop v k).
Proof. intros w. destruct v; simpl; try done. by destruct (String.eqb k "bind"). Qed.

Lemma sync_read_ethereum : sync read_ethereum.
Proof. intros w. unfold read_ethereum. by destruct (window w). Qed.

Lemma sync_write_ethereum v : sync (write_ethereum v).
Proof. intros w. unfold write_ethereum. by destruct (window w). Qed.

#[export] Hint Resolve sync_ret sync_throw sync_bind sync_try_catch sync_async
  sync_console_warn sync_console_info sync_get_prop sync_read_ethereum
  sync_write_ethereum : sync.

Lemma sync_assign_request v : sync (assign_request v).
Proof.
  unfold assign_request. apply sync_bind; [auto with sync|].
  intros []; auto with sync.
Qed.

Section WithHost.

Variable native : nat → value → completion.

Lemma sync_call_fn f arg : sync (call_fn native f arg).
Proof.
  destruct f; simpl; auto with sync.
  intros w. unfold call_native. by destruct (native id arg).
Qed.

Lemma sync_call v arg : sync (call native v arg).
Proof. destruct v; simpl; auto using sync_call_fn with sync. Qed.

Lemma sync_install : sync (install native).
Proof.
  unfold install.
  apply sync_bind; [auto with sync|]. intros eth.
  destruct (negb (truthy eth)); [auto with sync|].
  apply sync_bind; [auto with sync|]. intros eth1.
  apply sync_bind; [auto with sync|]. intros req.
  destruct (truthy req); [|auto with sync].
  do 5 (apply sync_bind; [auto using sync_call with sync|]; intros ?).
  apply sync_assign_request.
Qed.

(** The stub's request operation on any argument bundle: one warning, then
    the fallback, delivered through a fulfilled promise. *)
Lemma stub_request_call (args : value) (w : env) :
  ∃ v, call_fn native StubRequest args w
         = (Ok (VPromise (Fulfilled v)), log (warn_no_metamask args) w)
       ∧ is_fallback_for args v.
Proof.
  destruct (fallback_total args (log (warn_no_metamask args) w)) as (v & Hv & Hfb).
  exists v. split; [|done].
  simpl. unfold async, bind, console_warn. fold (warn_no_metamask args).
  rewrite Hv.
  by destruct (fallback_shape _ _ _ _ Hv) as [-> | ->].
Qed.

(** What the wrapper does when the function it wraps raises. *)
Lemma wrapped_request_catches (f : fn) (args : value) (w : env) (e : value) (w' : env) :
  raises native f args w e w' →
  ∃ v, call_fn native (WrappedRequest (VFun f)) args w
         = (Ok (VPromise (Fulfilled v)), log (warn_caught e) w')
       ∧ is_fallback_for args v.
Proof.
  intros Hr.
  destruct (fallback_total args (log (warn_caught e) w')) as (v & Hv & Hfb).
  exists v. split; [|done].
  cbn [call_fn]. unfold async, try_catch, bind at 1.
  destruct Hr as [-> | ->]; cbn [await throw];
    unfold bind, console_warn; fold (warn_caught e); rewrite Hv;
    by destruct (fallback_shape _ _ _ _ Hv) as [-> | ->].
Qed.

(** Installation over a provider whose [request] is a function. *)
Lemma setup_wraps (props : gmap string value) (f : fn) (out : list entry) :
  props !! "request" = Some (VFun f) →
  setupMetaMaskStub native (Env (Some (VObj props)) out)
  = (Ok tt,
     Env (Some (VObj (<["request" := VFun (WrappedRequest (VFun f))]> props))) out).
Proof.
  intros Hreq.
  unfold setupMetaMaskStub, try_catch, install, bind, read_ethereum, get_prop,
    assign_request, bind, read_ethereum, write_ethereum, ret; cbn.
  rewrite Hreq. cbn. rewrite Hreq. reflexivity.
Qed.

(** C1. When [window.ethereum] is absent (or any falsy value), the shim
    installs the stub object; the stub's [request] is the stub request
    closure, and calling it on any argument bundle logs one warning and
    returns a fulfilled promise, never a thrown error or a rejection: an
    empty array when the bundle is an object whose [method] is
    ["eth_requestAccounts"], [null] for every other bundle (missing, [null],
    primitive, other method). *)
Theorem C1_stub_request_never_raises (eth : value) (out : list entry) :
  truthy eth = false →
  setupMetaMaskStub native (Env (Some eth) out)
    = (Ok tt, Env (Some stub) (out ++ [info_installed]))
  ∧ (∀ w, get_prop stub "request" w = (Ok (VFun StubRequest), w))
  ∧ (∀ args w, ∃ v,
       call native (VFun StubRequest) args w
         = (Ok (VPromise (Fulfilled v)), log (warn_no_metamask args) w)
       ∧ is_fallback_for args v).
Proof.
  intros Hf. split; [|split].
  - unfold setupMetaMaskStub, try_catch, install, bind, read_ethereum; cbn.
    rewrite Hf. reflexivity.
  - intros w. reflexivity.
  - intros args w. apply stub_request_call.
Qed.

(** C2. When [window.ethereum] is an object whose [request] is a function,
    the shim replaces [request] by the wrapper around it and logs nothing.
    Whenever the original raises on an input (it throws, or the promise it
    returns rejects), the wrapper on the same input returns a fulfilled
    promise holding the fallback (empty array for an
    ["eth_requestAccounts"] bundle, [null] otherwise), and the console
    holds exactly one more entry than the original left: the warning with
    the caught error. *)
Theorem C2_wrapped_request_falls_back
    (props : gmap string value) (f : fn) (out : list entry) :
  props !! "request" = Some (VFun f) →
  ∃ w1,
    setupMetaMaskStub native (Env (Some (VObj props)) out) = (Ok tt, w1)
    ∧ (∀ w, get_prop (default VUndefined (window w1)) "request" w
            = (Ok (VFun (WrappedRequest (VFun f))), w))
    ∧ console w1 = out
    ∧ (∀ args w e w', raises native f args w e w' →
         ∃ v, call native (VFun (WrappedRequest (VFun f))) args w
                = (Ok (VPromise (Fulfilled v)), log (warn_caught e) w')
              ∧ console (log (warn_caught e) w') = console w' ++ [warn_caught e]
              ∧ is_fallback_for args v).
Proof.
  intros Hreq. eexists. split; [by apply setup_wraps|].
  split; [|split; [done|]].
  - intros w. cbn. by rewrite lookup_insert_eq.
  - intros args w e w' Hr.
    destruct (wrapped_request_catches f args w e w' Hr) as (v & Hv & Hfb).
    exists v. split; [exact Hv|]. split; [reflexivity | exact Hfb].
Qed.

(** C9. The setup function returns normally in every environment. Where
    there is no [window] it does nothing; where the installation throws,
    the error is caught by the surrounding [try], one warning carrying the
    error is logged, and nothing propagates to the caller. The same holds
    for the guarded call at module level. *)
Theorem C9_setup_never_raises (w : env) :
  (∃ w', setupMetaMaskStub native w = (Ok tt, w'))
  ∧ (∃ w', module_init native w = (Ok tt, w'))
  ∧ (window w = None → setupMetaMaskStub native w = (Ok tt, w))
  ∧ (∀ e w1, window w ≠ None → install native w = (Thrown e, w1) →
       setupMetaMaskStub native w = (Ok tt, log (warn_setup_failed e) w1)).
Proof.
  assert (Hs : ∃ w', setupMetaMaskStub native w = (Ok tt, w')).
  { unfold setupMetaMaskStub. destruct (window w) as [eth|]; [|by eexists].
    unfold try_catch. pose proof (sync_install w) as Hsync.
    destruct (install native w) as [[[]|e|] w1]; simpl in *.
    - by eexists.
    - by eexists.
    - done. }
  split; [exact Hs|]. split; [|split].
  - unfold module_init. destruct (window w); [exact Hs | by eexists].
  - intros Hw. unfold setupMetaMaskStub. by rewrite Hw.
  - intros e w1 Hw Hi. unfold setupMetaMaskStub, try_catch.
    destruct (window w); [|done]. by rewrite Hi.
Qed.

(** C10. When [window.ethereum] is truthy and its [request] reads as a
    falsy value (no request operation), the setup function changes
    nothing: the provider global is the same value afterwards, and nothing
    is logged. *)
Theorem C10_provider_without_request_untouched (w : env) (eth req : value) :
  window w = Some eth →
  truthy eth = true →
  get_prop eth "request" w = (Ok req, w) →
  truthy req = false →
  setupMetaMaskStub native w = (Ok tt, w).
Proof.
  intros Hw Ht Hg Hr.
  unfold setupMetaMaskStub, try_catch, install, bind, read_ethereum.
  rewrite Hw, Ht. cbn [negb]. rewrite Hw, Hg, Hr. reflexivity.
Qed.

End WithHost.

(** *** The shim at work on the sample environments *)

Example stub_answers_accounts_request :
  call sample_host (VFun StubRequest) accounts_request (Env (Some stub) [])
  = (Ok (VPromise (Fulfilled (VArr []))),
     Env (Some stub) [warn_no_metamask accounts_request]).
Proof. reflexivity. Qed.

Example stub_answers_other_request :
  call sample_host (VFun StubRequest) chain_request (Env (Some stub) [])
  = (Ok (VPromise (Fulfilled VNull)),
     Env (Some stub) [warn_no_metamask chain_request]).
Proof. reflexivity. Qed.

Example stub_answers_missing_bundle :
  call sample_host (VFun StubRequest) VUndefined (Env (Some stub) [])
  = (Ok (VPromise (Fulfilled VNull)),
     Env (Some stub) [warn_no_metamask VUndefined]).
Proof. reflexivity. Qed.

Example wrapper_passes_results_through :
  call sample_host (VFun (WrappedRequest (VFun (Native 2)))) chain_request (Env None [])
  = (Ok (VPromise (Fulfilled VNull)), Env None []).
Proof. reflexivity. Qed.

Example wrapper_catches_rejection :
  call sample_host (VFun (WrappedRequest (VFun (Native 1)))) accounts_request (Env None [])
  = (Ok (VPromise (Fulfilled (VArr []))),
     Env None [warn_caught (VStr "Failed to connect to MetaMask")]).
Proof. reflexivity. Qed.

Example install_throws_on_broken_provider :
  install sample_host (Env (Some broken_provider) [])
  = (Thrown (TypeError "not a function"), Env (Some broken_provider) []).
Proof. reflexivity. Qed.

Example setup_survives_broken_provider :
  setupMetaMaskStub sample_host (Env (Some broken_provider) [])
  = (Ok tt, Env (Some broken_provider) [warn_setup_failed (TypeError "not a function")]).
Proof. reflexivity. Qed.

Lemma C1_witness :
  truthy VUndefined = false
  ∧ setupMetaMaskStub sample_host (Env (Some VUndefined) [])
    = (Ok tt, Env (Some stub) [info_installed]).
Proof.
  split; [reflexivity|].
  exact (proj1 (C1_stub_request_never_raises sample_host VUndefined [] eq_refl)).
Defined.

Lemma C2_witness :
  throwing_provider !! "request" = Some (VFun (Native 0))
  ∧ ∃ w1, setupMetaMaskStub sample_host (Env (Some (VObj throwing_provider)) [])
          = (Ok tt, w1).
Proof.
  assert (H : throwing_provider !! "request" = Some (VFun (Native 0)))
    by (vm_compute; reflexivity).
  split; [exact H|].
  destruct (C2_wrapped_request_falls_back sample_host throwing_provider (Native 0) [] H)
    as (w1 & Hs & _).
  exists w1. exact Hs.
Defined.

Lemma C9_witness :
  window (Env (Some broken_provider) []) ≠ None
  ∧ install sample_host (Env (Some broken_provider) [])
    = (Thrown (TypeError "not a function"), Env (Some broken_provider) [])
  ∧ setupMetaMaskStub sample_host (Env (Some broken_provider) [])
    = (Ok tt, log (warn_setup_failed (TypeError "not a function"))
                  (Env (Some broken_provider) [])).
Proof.
  assert (H1 : window (Env (Some broken_provider) []) ≠ None) by discriminate.
  assert (H2 : install sample_host (Env (Some broken_provider) [])
    = (Thrown (TypeError "not a function"), Env (Some broken_provider) []))
    by (vm_compute; reflexivity).
  split; [exact H1|]. split; [exact H2|].
  exact (proj2 (proj2 (proj2
    (C9_setup_never_raises sample_host (Env (Some broken_provider) [])))) _ _ H1 H2).
Defined.

Lemma C10_witness :
  window (Env (Some silent_provider) []) = Some silent_provider
  ∧ truthy silent_provider = true
  ∧ get_prop silent_provider "request" (Env (Some silent_provider) [])
    = (Ok VUndefined, Env (Some silent_provider) [])
  ∧ truthy VUndefined = false
  ∧ setupMetaMaskStub sample_host (Env (Some silent_provider) [])
    = (Ok tt, Env (Some silent_provider) []).
Proof.
  assert (H : get_prop silent_provider "request" (Env (Some silent_provider) [])
    = (Ok VUndefined, Env (Some silent_provider) [])) by (vm_compute; reflexivity).
  split; [reflexivity|]. split; [reflexivity|]. split; [exact H|].
  split; [reflexivity|].
  exact (C10_provider_without_request_untouched sample_host
           (Env (Some silent_provider) []) silent_provider VUndefined
           eq_refl eq_refl H eq_refl).
Defined.

End ShimSpec.
(* ====================================================================== *)
(** ** Properties of the gallery view *)
(* ====================================================================== *)

Module GallerySpec.
Import Gallery.

Lemma lookup_past {A} (h ext : list A) (k : nat) :
  (h ++ ext) !! (length h + k) = ext !! k.
Proof. induction h as [|x h IH]; [done | exact IH]. Qed.

Lemma lookup_before {A} (h ext : list A) (l : nat) (x : A) :
  h !! l = Some x → (h ++ ext) !! l = Some x.
Proof. intros H. by apply lookup_app_l_Some. Qed.

Lemma alloc_all_items (h0 : list (gmap string val)) :
  alloc_all items h0 = (h0 ++ items, [Ref (length h0 + 0); Ref (length h0 + 1)]).
Proof.
  unfold items at 1. cbn [alloc_all alloc].
  rewrite length_app, <- app_assoc, Nat.add_0_r. reflexivity.
Qed.

Lemma field_past (h ext : list (gmap string val)) (k : nat) (o : gmap string val) (key : string) :
  ext !! k = Some o →
  field (h ++ ext) (Ref (length h + k)) key = default Undefined (o !! key).
Proof. intros H. unfold field. by rewrite lookup_past, H. Qed.

Lemma App_eq (h0 : list (gmap string val)) (v : val) :
  App h0 v = (h0 ++ items,
              {| tiles := item_tiles h0 ++ section_tiles;
                 modal := modal_of (h0 ++ items) v |}).
Proof.
  unfold App. rewrite alloc_all_items. cbn [fmap list_fmap Placeholder].
  unfold Placeholder, item_tiles.
  rewrite !(field_past h0 items 0 _ _ eq_refl), !(field_past h0 items 1 _ _ eq_refl).
  reflexivity.
Qed.

Lemma carries_grows h ext l i : carries h l i → carries (h ++ ext) l i.
Proof.
  intros (path & cap & Hd & [[Hi Hl] | (Hi & Hl & h0 & Hpre & ->)]);
    exists path, cap; (split; [done|]); [left | right].
  - split; [done|]. by apply lookup_before.
  - split; [done|]. split; [by apply lookup_before|].
    exists h0. split; [|done]. by apply prefix_app_r.
Qed.

Lemma carries_fields h l i path cap :
  carries h l i → declared_tiles !! i = Some (path, cap) →
  field h (Ref l) "image" = Str path ∧ field h (Ref l) "caption" = Str cap.
Proof.
  intros (path' & cap' & Hd & Hc) Hd'. rewrite Hd in Hd'. injection Hd' as -> ->.
  unfold field.
  destruct Hc as [[_ ->] | (_ & -> & _)]; by vm_compute.
Qed.

Lemma section_tiles_declared :
  (λ tl, (tile_src tl, tile_onClick tl)) <$> section_tiles
  = (λ d, (Str d.1, SetFullscreenLiteral d.1 d.2)) <$> drop 2 declared_tiles.
Proof. vm_compute. reflexivity. Qed.

Lemma section_tile_lookup (h0 : list (gmap string val)) (i : nat) (path cap : string) :
  2 ≤ i → declared_tiles !! i = Some (path, cap) →
  ∃ tl, (item_tiles h0 ++ section_tiles) !! i = Some tl
        ∧ tile_src tl = Str path
        ∧ tile_onClick tl = SetFullscreenLiteral path cap.
Proof.
  intros Hi Hd.
  assert (Hdrop : drop 2 declared_tiles !! (i - 2) = Some (path, cap)).
  { rewrite lookup_drop. by replace (2 + (i - 2)) with i by lia. }
  pose proof (f_equal (.!! (i - 2)) section_tiles_declared) as Heq.
  cbn beta in Heq. rewrite !list_lookup_fmap, Hdrop in Heq.
  destruct (section_tiles !! (i - 2)) as [tl|] eqn:Htl; [|done].
  injection Heq as Hsrc Hclick. exists tl.
  split; [|done].
  rewrite lookup_app_r by (simpl; lia). exact Htl.
Qed.

Lemma step_click_tile (p : page) (i : nat) (path cap : string) :
  consistent p → declared_tiles !! i = Some (path, cap) →
  ∃ h1 l,
    step p (Click (OnTile i))
      = {| heap := h1 ++ items; fullscreenImage := Ref l;
           screen := {| tiles := item_tiles h1 ++ section_tiles;
                        modal := modal_of (h1 ++ items) (Ref l) |};
           img_src := catalogue_srcs ++ drop 2 (img_src p) |}
    ∧ heap p `prefix_of` h1
    ∧ carries h1 l i
    ∧ tile_src <$> tiles (screen p) !! i = Some (Str path).
Proof.
  destruct p as [h fs scr dom]. intros [(h0 & Hh & Hs) _] Hd.
  cbn [heap screen fullscreenImage] in Hh, Hs. subst h scr.
  destruct (decide (i < 2)) as [Hi|Hi].
  - exists (h0 ++ items), (length h0 + i).
    assert (Hit : items !! i
      = Some {[ "id" := Num (i + 1); "caption" := Str cap; "image" := Str path ]}).
    { destruct i as [|[|i]]; [| |lia]; injection Hd as <- <-; reflexivity. }
    split; [|split; [done|split]].
    + destruct i as [|[|i]]; [| |lia]; unfold step, propagation_path;
        cbn [screen tiles heap item_tiles app lookup list_lookup tile_onClick
             bubble run_handler img_src];
        rewrite App_eq; reflexivity.
    + exists path, cap. split; [done|]. right. split; [done|].
      split; [by rewrite lookup_past|]. by exists h0.
    + destruct i as [|[|i]]; [| |lia]; injection Hd as <- <-; reflexivity.
  - destruct (section_tile_lookup h0 i path cap ltac:(lia) Hd) as (tl & Htl & Hsrc & Hclick).
    exists ((h0 ++ items) ++ [{[ "image" := Str path; "caption" := Str cap ]}]),
           (length (h0 ++ items)).
    split; [|split; [|split]].
    + remember (item_tiles h0 ++ section_tiles) as ts eqn:Hts.
      unfold step, propagation_path. cbn [screen tiles heap img_src].
      rewrite Htl, Hclick. cbn [bubble run_handler alloc].
      rewrite App_eq. reflexivity.
    + by apply prefix_app_r.
    + exists path, cap. split; [done|]. left. split; [lia|].
      by apply list_lookup_middle.
    + remember (item_tiles h0 ++ section_tiles) as ts eqn:Hts.
      cbn [screen tiles]. by rewrite Htl, <- Hsrc.
Qed.

Lemma modal_of_ref h l : ∃ o, modal_of h (Ref l) = Some o
  ∧ backdrop_onClick o = SetFullscreenImage Null
  ∧ close_onClick o = SetFullscreenImage Null
  ∧ image_onClick o = StopPropagation.
Proof. eexists. split; [reflexivity|]. done. Qed.

Lemma step_dismiss_viewing (p : page) (t : target) (l : loc) :
  consistent p → dismissing t → fullscreenImage p = Ref l →
  step p (Click t)
  = {| heap := heap p ++ items; fullscreenImage := Null;
       screen := {| tiles := item_tiles (heap p) ++ section_tiles; modal := None |};
       img_src := catalogue_srcs ++ drop 2 (img_src p) |}.
Proof.
  destruct p as [h fs scr dom]. intros [(h0 & Hh & Hs) _] Ht Hl.
  cbn [heap screen fullscreenImage] in Hh, Hs, Hl. subst h scr fs.
  destruct Ht as [-> | [-> | ->]];
    unfold step, propagation_path; cbn [screen modal modal_of truthy heap img_src
      backdrop_onClick close_onClick bubble run_handler];
    rewrite App_eq; reflexivity.
Qed.

Lemma step_overlay_idle (p : page) (t : target) :
  consistent p → fullscreenImage p = Null → (∀ i, t ≠ OnTile i) →
  step p (Click t) = p.
Proof.
  destruct p as [h fs scr dom]. intros [(h0 & Hh & Hs) _] Hn Ht.
  cbn [heap screen fullscreenImage] in Hh, Hs, Hn. subst h scr fs.
  destruct t; [by destruct (Ht i)| | | |]; reflexivity.
Qed.

Lemma step_enlarged_image (p : page) :
  consistent p → step p (Click OnEnlargedImage) = p.
Proof.
  intros Hc. destruct Hc as [(h0 & Hh & Hs) Hcell].
  destruct p as [h fs scr dom]. cbn [heap screen fullscreenImage] in *. subst h scr.
  destruct Hcell as [-> | (l & i & -> & _)]; reflexivity.
Qed.

Lemma step_missing_tile (p : page) (i : nat) :
  tiles (screen p) !! i = None →
  step p (Click (OnTile i)) = p ∧ step p (ImgError i) = p.
Proof. intros H. unfold step, propagation_path. by rewrite H. Qed.

Lemma consistent_mount : consistent mount.
Proof.
  split; [|by left]. exists []. split; reflexivity.
Qed.

Lemma tiles_length (p : page) :
  consistent p → length (tiles (screen p)) = length declared_tiles.
Proof. intros [(h0 & _ & ->) _]. reflexivity. Qed.

Lemma consistent_step (p : page) (ev : event) : consistent p → consistent (step p ev).
Proof.
  intros Hc. destruct ev as [t|i].
  - destruct t as [i| | | |].
    + destruct (declared_tiles !! i) as [[path cap]|] eqn:Hd.
      * destruct (step_click_tile p i path cap Hc Hd) as (h1 & l & -> & _ & Hcar & _).
        split; [by exists h1|]. right. exists l, i. split; [done|].
        by apply carries_grows.
      * apply lookup_ge_None in Hd. rewrite <- (tiles_length p Hc) in Hd.
        apply lookup_ge_None in Hd.
        by rewrite (proj1 (step_missing_tile p i Hd)).
    + destruct (proj2 Hc) as [Hn | (l & i & Hl & _)].
      * by rewrite step_overlay_idle.
      * rewrite (step_dismiss_viewing p OnBackdrop l Hc ltac:(by left) Hl).
        split; [by exists (heap p)|by left].
    + destruct (proj2 Hc) as [Hn | (l & i & Hl & _)].
      * by rewrite step_overlay_idle.
      * rewrite (step_dismiss_viewing p OnCloseButton l Hc ltac:(right; by left) Hl).
        split; [by exists (heap p)|by left].
    + by rewrite step_enlarged_image.
    + destruct (proj2 Hc) as [Hn | (l & i & Hl & _)].
      * by rewrite step_overlay_idle.
      * rewrite (step_dismiss_viewing p OnCaption l Hc ltac:(right; by right) Hl).
        split; [by exists (heap p)|by left].
  - unfold step. destruct (tiles (screen p) !! i); [|done].
    destruct Hc as [H1 H2]. split; assumption.
Qed.

Lemma consistent_run (evs : list event) : consistent (run evs).
Proof.
  unfold run. induction evs as [|ev evs IH] using rev_ind.
  - apply consistent_mount.
  - rewrite foldl_app. by apply consistent_step.
Qed.

Lemma selection_idle_cell (p : page) :
  consistent p → selection_of p = Idle → fullscreenImage p = Null.
Proof.
  intros [_ [H | (l & i & H & _)]] Hs; [done|].
  unfold selection_of in Hs. by rewrite H in Hs.
Qed.

Lemma selection_viewing_cell (p : page) (image caption : val) :
  consistent p → selection_of p = Viewing image caption →
  ∃ l, fullscreenImage p = Ref l.
Proof.
  intros [_ [H | (l & i & H & _)]] Hs; [|by exists l].
  unfold selection_of in Hs. by rewrite H in Hs.
Qed.

Lemma paths_distinct : NoDup (declared_tiles.*1).
Proof. apply (bool_decide_unpack _). vm_compute. reflexivity. Qed.

Lemma path_identifies_tile (i j : nat) (path cap cap' : string) :
  declared_tiles !! i = Some (path, cap) →
  declared_tiles !! j = Some (path, cap') → j = i.
Proof.
  intros Hi Hj.
  apply (proj1 (NoDup_alt _) paths_distinct j i path);
    rewrite list_lookup_fmap; [by rewrite Hj | by rewrite Hi].
Qed.

(** The page right after a click on tile [i], in any state of the page. *)
Lemma click_shows_tile (p : page) (i : nat) (path cap : string) :
  consistent p → declared_tiles !! i = Some (path, cap) →
  selection_of (step p (Click (OnTile i))) = Viewing (Str path) (Str cap)
  ∧ ∃ o, modal (screen (step p (Click (OnTile i)))) = Some o
         ∧ image_src o = Str path ∧ image_alt o = Str cap ∧ caption_text o = Str cap.
Proof.
  intros Hc Hd.
  destruct (step_click_tile p i path cap Hc Hd) as (h1 & l & -> & _ & Hcar & _).
  destruct (carries_fields (h1 ++ items) l i path cap (carries_grows _ _ _ _ Hcar) Hd)
    as [Himg Hcap].
  unfold selection_of. cbn [fullscreenImage heap screen modal modal_of truthy].
  rewrite Himg, Hcap. split; [done|].
  eexists. split; [reflexivity|]. done.
Qed.

(** C3. In any reachable state with no selection, a click on tile [i]
    selects exactly the image path and the caption declared for tile [i]:
    the path is the [src] of the clicked tile, the modal shows that path
    and caption, and since image paths are pairwise distinct the selection
    belongs to no other tile. Every tile on the page is a declared one. *)
Theorem C3_click_selects_clicked_tile (evs : list event) (i : nat) (path cap : string) :
  selection_of (run evs) = Idle →
  declared_tiles !! i = Some (path, cap) →
  length (tiles (screen (run evs))) = length declared_tiles
  ∧ tile_src <$> tiles (screen (run evs)) !! i = Some (Str path)
  ∧ selection_of (step (run evs) (Click (OnTile i))) = Viewing (Str path) (Str cap)
  ∧ (∃ o, modal (screen (step (run evs) (Click (OnTile i)))) = Some o
          ∧ image_src o = Str path ∧ caption_text o = Str cap)
  ∧ (∀ j cap', declared_tiles !! j = Some (path, cap') → j = i).
Proof.
  intros _ Hd. pose proof (consistent_run evs) as Hc.
  split; [by apply tiles_length|].
  split; [by destruct (step_click_tile _ i path cap Hc Hd) as (? & ? & _ & _ & _ & ?)|].
  destruct (click_shows_tile _ i path cap Hc Hd) as (Hsel & o & Ho & Hi & _ & Hcap).
  split; [done|]. split; [by exists o|].
  intros j cap' Hj. by eapply path_identifies_tile.
Qed.

(** C4. While an image is shown, a click on the enlarged image changes
    nothing at all (its handler stops the propagation before the backdrop
    handler runs), and a click on the backdrop or on the close button
    clears the selection. *)
Theorem C4_enlarged_image_click_is_contained (evs : list event) (image caption : val) :
  selection_of (run evs) = Viewing image caption →
  step (run evs) (Click OnEnlargedImage) = run evs
  ∧ selection_of (step (run evs) (Click OnEnlargedImage)) = Viewing image caption
  ∧ selection_of (step (run evs) (Click OnBackdrop)) = Idle
  ∧ selection_of (step (run evs) (Click OnCloseButton)) = Idle
  ∧ modal (screen (step (run evs) (Click OnBackdrop))) = None
  ∧ modal (screen (step (run evs) (Click OnCloseButton))) = None.
Proof.
  intros Hv. pose proof (consistent_run evs) as Hc.
  destruct (selection_viewing_cell _ _ _ Hc Hv) as [l Hl].
  rewrite (step_enlarged_image _ Hc).
  rewrite (step_dismiss_viewing _ OnBackdrop l Hc (or_introl eq_refl) Hl).
  rewrite (step_dismiss_viewing _ OnCloseButton l Hc (or_intror (or_introl eq_refl)) Hl).
  done.
Qed.

Lemma dismiss_clears (p : page) (t : target) :
  consistent p → t = OnBackdrop ∨ t = OnCloseButton →
  selection_of (step p (Click t)) = Idle
  ∧ (selection_of p = Idle → step p (Click t) = p).
Proof.
  intros Hc Ht.
  assert (Hd : dismissing t) by (destruct Ht; [by left | right; by left]).
  assert (Hnt : ∀ i, t ≠ OnTile i) by (intros i; by destruct Ht as [-> | ->]).
  split.
  - destruct (proj2 Hc) as [Hn | (l & i & Hl & _)].
    + rewrite (step_overlay_idle p t Hc Hn Hnt). unfold selection_of. by rewrite Hn.
    + by rewrite (step_dismiss_viewing p t l Hc Hd Hl).
  - intros Hs. apply step_overlay_idle; [done| |done].
    by apply selection_idle_cell.
Qed.

(** C5. A dismiss action (a click on the backdrop or on the close button)
    leaves no selection, whatever the state; with no selection it changes
    nothing; a second dismiss right after the first changes nothing; so any
    sequence of tile clicks followed by one dismiss ends with no
    selection. The dismiss does clear something: a sequence of tile clicks
    that ends on tile [i] leaves tile [i] selected, the state cell holding
    an object and the modal on the page, and the dismiss that follows sets
    the cell to [null] and takes the modal away. *)
Theorem C5_dismiss_is_idempotent (evs : list event) (t : target) :
  t = OnBackdrop ∨ t = OnCloseButton →
  selection_of (step (run evs) (Click t)) = Idle
  ∧ (selection_of (run evs) = Idle → step (run evs) (Click t) = run evs)
  ∧ step (step (run evs) (Click t)) (Click t) = step (run evs) (Click t)
  ∧ (∀ clicks : list nat,
       selection_of (run ((Click ∘ OnTile <$> clicks) ++ [Click t])) = Idle)
  ∧ (∀ image caption,
       selection_of (run evs) = Viewing image caption →
       fullscreenImage (run evs) ≠ Null
       ∧ modal (screen (run evs)) ≠ None
       ∧ fullscreenImage (step (run evs) (Click t)) = Null
       ∧ modal (screen (step (run evs) (Click t))) = None)
  ∧ (∀ (clicks : list nat) (i : nat) (path cap : string),
       declared_tiles !! i = Some (path, cap) →
       selection_of (run (Click ∘ OnTile <$> clicks ++ [i]))
         = Viewing (Str path) (Str cap)
       ∧ selection_of (run ((Click ∘ OnTile <$> clicks ++ [i]) ++ [Click t])) = Idle).
Proof.
  intros Ht. pose proof (consistent_run evs) as Hc.
  destruct (dismiss_clears _ t Hc Ht) as [H1 H2].
  split; [done|]. split; [done|]. split; [|split; [|split]].
  - by apply (dismiss_clears _ t (consistent_step _ _ Hc) Ht).
  - intros clicks. unfold run. rewrite foldl_app. cbn [foldl].
    by apply (dismiss_clears _ t (consistent_run _) Ht).
  - intros image caption Hv.
    destruct (selection_viewing_cell _ _ _ Hc Hv) as [l Hl].
    assert (Hd : dismissing t) by (destruct Ht; [by left | right; by left]).
    rewrite (step_dismiss_viewing _ t l Hc Hd Hl). cbn [fullscreenImage screen modal].
    destruct Hc as [(h0 & _ & Hs) _]. rewrite Hs, Hl. cbn [modal modal_of truthy].
    done.
  - intros clicks i path cap Hd.
    rewrite fmap_app. cbn [fmap list_fmap compose].
    split.
    + unfold run. rewrite foldl_app. cbn [foldl].
      by apply (click_shows_tile _ i path cap (consistent_run _) Hd).
    + unfold run. rewrite foldl_app. cbn [foldl].
      by apply (dismiss_clears _ t (consistent_run _) Ht).
Qed.

(** C6. Two different tiles clicked one after the other, with no dismiss
    in between: the selection is the path and caption of the second tile,
    the same as if only the second had been clicked, and its path is not
    the first tile's. *)
Theorem C6_last_click_wins (evs : list event) (i j : nat) (pi ci pj cj : string) :
  i ≠ j →
  declared_tiles !! i = Some (pi, ci) →
  declared_tiles !! j = Some (pj, cj) →
  selection_of (run (evs ++ [Click (OnTile i); Click (OnTile j)]))
    = Viewing (Str pj) (Str cj)
  ∧ selection_of (run (evs ++ [Click (OnTile i); Click (OnTile j)]))
    = selection_of (run (evs ++ [Click (OnTile j)]))
  ∧ pj ≠ pi.
Proof.
  intros Hij Hi Hj. pose proof (consistent_run evs) as Hc.
  unfold run. rewrite !foldl_app. cbn [foldl]. fold (run evs).
  destruct (click_shows_tile _ j pj cj (consistent_step _ (Click (OnTile i)) Hc) Hj)
    as [-> _].
  destruct (click_shows_tile _ j pj cj Hc Hj) as [-> _].
  split; [done|]. split; [done|].
  intros ->. apply Hij. symmetry. by eapply path_identifies_tile.
Qed.

Lemma decode_encoded_char (c : ascii) (rest : string) :
  percent_decode (encodeURIComponent (String c rest))
  = String c <$> percent_decode (encodeURIComponent rest).
Proof. destruct c as [[] [] [] [] [] [] [] []]; reflexivity. Qed.

Lemma percent_decode_encode (s : string) :
  percent_decode (encodeURIComponent s) = Some s.
Proof.
  induction s as [|c s IH]; [done|].
  by rewrite decode_encoded_char, IH.
Qed.

Lemma starts_with_append (s t : string) : starts_with (s +:+ t) s = true.
Proof.
  induction s as [|c s IH]; [reflexivity|].
  change (String c s +:+ t) with (String c (s +:+ t)).
  cbn [starts_with]. by rewrite Ascii.eqb_refl, IH.
Qed.

Lemma contains_unfold (s sub : string) :
  contains s sub
  = starts_with s sub
    || match s with EmptyString => false | String _ rest => contains rest sub end.
Proof. by destruct s. Qed.

Lemma contains_infix (a label b : string) :
  contains (a +:+ label +:+ b) label = true.
Proof.
  induction a as [|c a IH].
  - change ("" +:+ label +:+ b) with (label +:+ b).
    by rewrite contains_unfold, starts_with_append.
  - change (String c a +:+ label +:+ b) with (String c (a +:+ label +:+ b)).
    rewrite contains_unfold, IH. apply orb_true_r.
Qed.

Lemma section_placeholders :
  Forall2 (λ tl label, tile_onError tl = PlaceholderOf (svg_600x800 label)
                       ∨ tile_onError tl = PlaceholderOf (svg_100x100 label))
          section_tiles (drop 2 placeholder_labels).
Proof.
  unfold section_tiles, placeholder_labels. cbn [imap replicate app drop].
  repeat (constructor; [(by left) || (by right)|]). constructor.
Qed.

Lemma tile_placeholder (p : page) (i : nat) (label : string) :
  consistent p → placeholder_labels !! i = Some label →
  ∃ tl svg, tiles (screen p) !! i = Some tl
            ∧ error_src (heap p) (tile_onError tl) = data_uri svg
            ∧ (svg = svg_600x800 label ∨ svg = svg_100x100 label).
Proof.
  destruct p as [h fs scr dom]. intros [(h0 & Hh & Hs) _] Hl.
  cbn [heap screen fullscreenImage] in Hh, Hs. subst h scr. cbn [screen tiles heap].
  destruct (decide (i < 2)) as [Hi|Hi].
  - destruct i as [|[|i]]; [| |lia]; injection Hl as <-;
      eexists _, _; (split; [reflexivity|]); (split; [|by left]);
      cbn [tile_onError error_src];
      [rewrite (field_past h0 items 0 _ _ eq_refl) | rewrite (field_past h0 items 1 _ _ eq_refl)];
      reflexivity.
  - assert (Hdrop : drop 2 placeholder_labels !! (i - 2) = Some label).
    { rewrite lookup_drop. by replace (2 + (i - 2)) with i by lia. }
    destruct (Forall2_lookup_r _ _ _ _ _ section_placeholders Hdrop) as (tl & Htl & Hor).
    exists tl. destruct Hor as [Ho | Ho]; eexists; (split; [|split]).
    + rewrite lookup_app_r by (simpl; lia). exact Htl.
    + by rewrite Ho.
    + by left.
    + rewrite lookup_app_r by (simpl; lia). exact Htl.
    + by rewrite Ho.
    + by right.
Qed.

Lemma section_placeholder_svgs :
  tile_onError <$> section_tiles = PlaceholderOf <$> drop 2 placeholder_svgs.
Proof. vm_compute. reflexivity. Qed.

Lemma placeholder_svgs_by_label :
  ∃ graphic : string → string,
    Forall2 (λ svg label, svg = graphic label
                          ∧ (svg = svg_600x800 label ∨ svg = svg_100x100 label))
            placeholder_svgs placeholder_labels.
Proof.
  exists (λ label, if String.eqb label "Tool" then svg_100x100 label
                   else svg_600x800 label).
  unfold placeholder_svgs, placeholder_labels.
  cbn [replicate app take drop fmap list_fmap].
  repeat (constructor; [split; [reflexivity | (by left) || (by right)]|]).
  constructor.
Qed.

Lemma tile_placeholder_svg (p : page) (i : nat) (svg : string) :
  consistent p → placeholder_svgs !! i = Some svg →
  ∃ tl, tiles (screen p) !! i = Some tl
        ∧ error_src (heap p) (tile_onError tl) = data_uri svg.
Proof.
  destruct p as [h fs scr dom]. intros [(h0 & Hh & Hs) _] Hl.
  cbn [heap screen fullscreenImage] in Hh, Hs. subst h scr. cbn [screen tiles heap].
  destruct (decide (i < 2)) as [Hi|Hi].
  - destruct i as [|[|i]]; [| |lia]; injection Hl as <-;
      eexists; (split; [reflexivity|]);
      cbn [tile_onError error_src];
      [rewrite (field_past h0 items 0 _ _ eq_refl) | rewrite (field_past h0 items 1 _ _ eq_refl)];
      reflexivity.
  - assert (Hdrop : drop 2 placeholder_svgs !! (i - 2) = Some svg).
    { rewrite lookup_drop. by replace (2 + (i - 2)) with i by lia. }
    pose proof (f_equal (.!! (i - 2)) section_placeholder_svgs) as Heq.
    cbn beta in Heq. rewrite !list_lookup_fmap, Hdrop in Heq.
    rewrite lookup_app_r by (simpl; lia). cbn [item_tiles length].
    remember (section_tiles !! (i - 2)) as o eqn:Ho. destruct o as [tl|]; [|discriminate Heq].
    injection Heq as Herr. exists tl. split; [reflexivity|]. by rewrite Herr.
Qed.

Lemma img_error_src (p : page) (i : nat) (svg : string) :
  consistent p → placeholder_svgs !! i = Some svg → i < length (img_src p) →
  img_src (step p (ImgError i)) !! i = Some (Str (data_uri svg)).
Proof.
  intros Hc Hl Hi. destruct (tile_placeholder_svg p i svg Hc Hl) as (tl & Htl & Hsrc).
  unfold step. rewrite Htl, Hsrc. cbn [img_src]. by apply list_lookup_insert_eq.
Qed.

Lemma click_img_src (p : page) (t : target) :
  img_src (step p (Click t))
  = if rerenders p t then catalogue_srcs ++ drop 2 (img_src p) else img_src p.
Proof.
  unfold step, rerenders. destruct (bubble _ _ _) as [h1 [v|]]; [|done].
  rewrite App_eq. reflexivity.
Qed.

Lemma img_src_length (evs : list event) :
  length (img_src (run evs)) = length declared_tiles.
Proof.
  unfold run. induction evs as [|ev evs IH] using rev_ind; [reflexivity|].
  rewrite foldl_app. cbn [foldl]. destruct ev as [t|i].
  - rewrite click_img_src. destruct (rerenders _ t); [|exact IH].
    rewrite length_app, length_drop, IH. reflexivity.
  - unfold step. destruct (tiles _ !! i); [|done].
    cbn [img_src]. by rewrite length_insert.
Qed.

(** C7, as the code has it. When the image of tile [i] fails to load, its
    error handler replaces the [src] of that image by a data URI whose
    payload decodes to an SVG graphic showing the tile's placeholder label:
    [Image <id>] for a catalogue tile, the name of the section for a section
    tile. The graphic is the one [placeholder_svgs] lists for tile [i], and
    every tile with the same label, that is every tile of the same section,
    gets this very graphic. Heap, state cell, tree and selection stay as
    they were, and the [src] of every other tile image is unchanged. *)
Theorem C7_error_handler_substitutes_placeholder
    (evs : list event) (i : nat) (label : string) :
  placeholder_labels !! i = Some label →
  (∃ svg, img_src (step (run evs) (ImgError i)) !! i = Some (Str (data_uri svg))
          ∧ (svg = svg_600x800 label ∨ svg = svg_100x100 label)
          ∧ percent_decode (encodeURIComponent svg) = Some svg
          ∧ contains svg label = true
          ∧ placeholder_svgs !! i = Some svg
          ∧ (∀ j, placeholder_labels !! j = Some label →
               img_src (step (run evs) (ImgError j)) !! j
               = Some (Str (data_uri svg))))
  ∧ heap (step (run evs) (ImgError i)) = heap (run evs)
  ∧ fullscreenImage (step (run evs) (ImgError i)) = fullscreenImage (run evs)
  ∧ screen (step (run evs) (ImgError i)) = screen (run evs)
  ∧ selection_of (step (run evs) (ImgError i)) = selection_of (run evs)
  ∧ (∀ j, j ≠ i →
       img_src (step (run evs) (ImgError i)) !! j = img_src (run evs) !! j).
Proof.
  intros Hl. pose proof (consistent_run evs) as Hc.
  destruct (tile_placeholder _ i label Hc Hl) as (tl & svg & Htl & Hsrc & Hsvg).
  assert (Hi : i < length (img_src (run evs))).
  { rewrite img_src_length. apply lookup_lt_Some in Hl. exact Hl. }
  unfold step. rewrite Htl, Hsrc. unfold selection_of. cbn [img_src heap fullscreenImage screen].
  split; [|split; [done|split; [done|split; [done|split; [done|]]]]].
  - destruct placeholder_svgs_by_label as [graphic Hall].
    destruct (Forall2_lookup_r _ _ _ _ _ Hall Hl) as (svg' & Hsvg' & Hg & Hor).
    destruct (tile_placeholder_svg _ i svg' Hc Hsvg') as (tl' & Htl' & Hsrc').
    rewrite Htl in Htl'. injection Htl' as <-.
    exists svg'. split; [rewrite <- Hsrc', Hsrc; by apply list_lookup_insert_eq|].
    split; [done|]. split; [apply percent_decode_encode|].
    split; [destruct Hor as [-> | ->]; apply contains_infix|].
    split; [done|].
    intros j Hj.
    destruct (Forall2_lookup_r _ _ _ _ _ Hall Hj) as (svgj & Hsvgj & Hgj & _).
    rewrite Hg, <- Hgj. apply img_error_src; [apply consistent_run | exact Hsvgj |].
    rewrite img_src_length. apply lookup_lt_Some in Hj. exact Hj.
  - intros j Hj. by apply list_lookup_insert_ne.
Qed.

(** Against C7 as stated: the first two tiles of the section "Cat in a Box"
    are different items (different image paths), yet their error handlers
    assign the same graphic, and that graphic shows neither the caption, nor
    the alternative text, nor the file name of the tile: its label names the
    section, not the item. *)
Lemma C7_counterexample :
  tile_src <$> tiles (screen mount) !! 2 = Some (Str "images/Cat in a Box/1.png")
  ∧ tile_src <$> tiles (screen mount) !! 3 = Some (Str "images/Cat in a Box/2.png")
  ∧ img_src (step mount (ImgError 2)) !! 2 = img_src (step mount (ImgError 3)) !! 3
  ∧ img_src (step mount (ImgError 2)) !! 2
    = Some (Str (data_uri (svg_600x800 "Cat in a Box")))
  ∧ contains (svg_600x800 "Cat in a Box") "Cat in a Box - Design 1" = false
  ∧ contains (svg_600x800 "Cat in a Box") "Cat in a Box 1" = false
  ∧ contains (svg_600x800 "Cat in a Box") "1.png" = false.
Proof. vm_compute. repeat split. Qed.

(** C8, as the code has it. In every reachable state with a selection, the
    state cell refers to an object that carries the image path and the
    caption of one tile. For a section tile the object holds exactly these
    two fields. For a catalogue tile the cell refers to the catalogue's own
    item object, at the location where a call of [App] put it, and that
    object also carries the item's [id]. *)
Theorem C8_selection_holds_tile_data (evs : list event) :
  selection_of (run evs) ≠ Idle →
  ∃ l o i path cap,
    fullscreenImage (run evs) = Ref l
    ∧ heap (run evs) !! l = Some o
    ∧ declared_tiles !! i = Some (path, cap)
    ∧ o !! "image" = Some (Str path)
    ∧ o !! "caption" = Some (Str cap)
    ∧ ((2 ≤ i ∧ o = {[ "image" := Str path; "caption" := Str cap ]})
       ∨ (i < 2
          ∧ o = {[ "id" := Num (i + 1); "caption" := Str cap; "image" := Str path ]}
          ∧ ∃ h0, (alloc_all items h0).1 `prefix_of` heap (run evs)
                  ∧ (alloc_all items h0).2 !! i = Some (Ref l))).
Proof.
  intros Hs. destruct (consistent_run evs) as [_ [Hn | (l & i & Hl & Hcar)]].
  { exfalso. apply Hs. unfold selection_of. by rewrite Hn. }
  destruct Hcar as (path & cap & Hd & [[Hi Ho] | (Hi & Ho & h0 & Hpre & ->)]).
  - exists l, {[ "image" := Str path; "caption" := Str cap ]}, i, path, cap.
    do 3 (split; [done|]).
    split; [by vm_compute|]. split; [by vm_compute|]. by left.
  - exists (length h0 + i),
      {[ "id" := Num (i + 1); "caption" := Str cap; "image" := Str path ]}, i, path, cap.
    do 3 (split; [done|]).
    split; [by vm_compute|]. split; [by vm_compute|]. right.
    split; [done|]. split; [done|]. exists h0. rewrite alloc_all_items.
    split; [done|]. by destruct i as [|[|i]]; [| |lia].
Qed.

(** Against C8 as stated: after a click on the first catalogue tile the
    state cell holds the very reference the catalogue of that call of [App]
    holds, and the object behind it has the catalogue field [id] next to the
    two display fields. *)
Lemma C8_counterexample :
  selection_of (run [Click (OnTile 0)]) ≠ Idle
  ∧ ∃ l o, fullscreenImage (run [Click (OnTile 0)]) = Ref l
           ∧ heap (run [Click (OnTile 0)]) !! l = Some o
           ∧ (alloc_all items []).2 !! 0 = Some (Ref l)
           ∧ heap mount !! l = Some o
           ∧ o !! "id" = Some (Num 1)
           ∧ o ≠ {[ "image" := Str "images/porsche.png";
                    "caption" := Str "porsche 991 poster" ]}.
Proof.
  split; [by vm_compute|].
  exists 0, {[ "id" := Num 1; "caption" := Str "porsche 991 poster";
               "image" := Str "images/porsche.png" ]}.
  do 5 (split; [by vm_compute|]).
  intros H. apply (f_equal (.!! "id")) in H. by vm_compute in H.
Qed.

(** *** The theorems at work on concrete runs *)

Lemma C3_witness :
  selection_of (run []) = Idle
  ∧ declared_tiles !! 4 = Some ("images/Cat in a Box/3.png", "Cat in a Box - Design 3")
  ∧ selection_of (step (run []) (Click (OnTile 4)))
    = Viewing (Str "images/Cat in a Box/3.png") (Str "Cat in a Box - Design 3").
Proof.
  assert (H1 : selection_of (run []) = Idle) by (vm_compute; reflexivity).
  assert (H2 : declared_tiles !! 4
               = Some ("images/Cat in a Box/3.png", "Cat in a Box - Design 3"))
    by reflexivity.
  split; [exact H1|]. split; [exact H2|].
  exact (proj1 (proj2 (proj2 (C3_click_selects_clicked_tile [] 4 _ _ H1 H2)))).
Defined.

Lemma C4_witness :
  selection_of (run [Click (OnTile 0)])
    = Viewing (Str "images/porsche.png") (Str "porsche 991 poster")
  ∧ step (run [Click (OnTile 0)]) (Click OnEnlargedImage) = run [Click (OnTile 0)].
Proof.
  assert (H : selection_of (run [Click (OnTile 0)])
              = Viewing (Str "images/porsche.png") (Str "porsche 991 poster"))
    by (vm_compute; reflexivity).
  split; [exact H|].
  exact (proj1 (C4_enlarged_image_click_is_contained [Click (OnTile 0)] _ _ H)).
Defined.

Lemma C5_witness :
  (OnCloseButton = OnBackdrop ∨ OnCloseButton = OnCloseButton)
  ∧ selection_of (run [Click (OnTile 7); Click (OnTile 1)])
    = Viewing (Str "images/porsche 2.jpg") (Str "porsche 991 poster")
  ∧ fullscreenImage (run [Click (OnTile 7); Click (OnTile 1)]) ≠ Null
  ∧ fullscreenImage (step (run [Click (OnTile 7); Click (OnTile 1)]) (Click OnCloseButton))
    = Null
  ∧ selection_of (step (run [Click (OnTile 7); Click (OnTile 1)]) (Click OnCloseButton))
    = Idle.
Proof.
  assert (H : OnCloseButton = OnBackdrop ∨ OnCloseButton = OnCloseButton)
    by (right; reflexivity).
  assert (Hv : selection_of (run [Click (OnTile 7); Click (OnTile 1)])
               = Viewing (Str "images/porsche 2.jpg") (Str "porsche 991 poster"))
    by (vm_compute; reflexivity).
  split; [exact H|]. split; [exact Hv|].
  pose proof (C5_dismiss_is_idempotent [Click (OnTile 7); Click (OnTile 1)] _ H)
    as (H1 & _ & _ & _ & H5 & _).
  destruct (H5 _ _ Hv) as (Hcell & _ & Hnull & _).
  split; [exact Hcell|]. split; [exact Hnull | exact H1].
Defined.

Lemma C6_witness :
  1 ≠ 17
  ∧ declared_tiles !! 1 = Some ("images/porsche 2.jpg", "porsche 991 poster")
  ∧ declared_tiles !! 17 = Some ("images/tools/download  (2).png", "tool 1")
  ∧ selection_of (run ([] ++ [Click (OnTile 1); Click (OnTile 17)]))
    = Viewing (Str "images/tools/download  (2).png") (Str "tool 1").
Proof.
  assert (H0 : 1 ≠ 17) by lia.
  assert (H1 : declared_tiles !! 1 = Some ("images/porsche 2.jpg", "porsche 991 poster"))
    by reflexivity.
  assert (H2 : declared_tiles !! 17 = Some ("images/tools/download  (2).png", "tool 1"))
    by reflexivity.
  split; [exact H0|]. split; [exact H1|]. split; [exact H2|].
  exact (proj1 (C6_last_click_wins [] 1 17 _ _ _ _ H0 H1 H2)).
Defined.

Lemma C7_witness :
  placeholder_labels !! 1 = Some "Image 2"
  ∧ selection_of (step (run [Click (OnTile 3)]) (ImgError 1))
    = selection_of (run [Click (OnTile 3)]).
Proof.
  assert (H : placeholder_labels !! 1 = Some "Image 2") by reflexivity.
  split; [exact H|].
  exact (proj1 (proj2 (proj2 (proj2 (proj2
    (C7_error_handler_substitutes_placeholder [Click (OnTile 3)] 1 _ H)))))).
Defined.

Lemma C8_witness :
  selection_of (run [Click (OnTile 18)]) ≠ Idle
  ∧ ∃ l o i path cap,
      fullscreenImage (run [Click (OnTile 18)]) = Ref l
      ∧ heap (run [Click (OnTile 18)]) !! l = Some o
      ∧ declared_tiles !! i = Some (path, cap).
Proof.
  assert (H : selection_of (run [Click (OnTile 18)]) ≠ Idle)
    by (vm_compute; discriminate).
  split; [exact H|].
  destruct (C8_selection_holds_tile_data [Click (OnTile 18)] H)
    as (l & o & i & path & cap & H1 & H2 & H3 & _).
  exists l, o, i, path, cap. split; [exact H1|]. split; [exact H2 | exact H3].
Defined.

End GallerySpec.

(* ====================================================================== *)
(** ** Further properties of the provider shim *)
(* ====================================================================== *)

Module ShimLaws.
Import Shim.

Section WithHost.

Variable native : nat → value → completion.

Lemma wrapped_call_passes_through
    (f : fn) (args : value) (w : env) (v : value) (w' : env) :
  call_fn native f args w = (Ok v, w') →
  flat v →
  (∀ e, v ≠ VPromise (Rejected e)) →
  call native (VFun (WrappedRequest (VFun f))) args w
  = (Ok (VPromise (settlement_of v)), w').
Proof.
  intros Hcall Hflat Hrej.
  cbn [call call_fn]. unfold async, try_catch, bind at 1. rewrite Hcall.
  destruct v as [| | | | | | | | |[x|e|]]; try reflexivity.
  - destruct x; try reflexivity. destruct Hflat.
  - by destruct (Hrej e).
Qed.

(** The wrapper hands a successful answer through. When the wrapped function
    returns without raising (a value that is neither a promise nor an
    object with a callable [then], a promise that fulfils with such a
    value, or a promise that stays pending), the wrapper returns a promise
    that settles the same way and writes nothing to the console. *)
Theorem wrapper_is_transparent (f : fn) (args : value) (w : env) (v : value) (w' : env) :
  call_fn native f args w = (Ok v, w') →
  flat v →
  (∀ e, v ≠ VPromise (Rejected e)) →
  ¬ thenable v →
  (∀ x, v = VPromise (Fulfilled x) → ¬ thenable x) →
  call native (VFun (WrappedRequest (VFun f))) args w
  = (Ok (VPromise (settlement_of v)), w').
Proof.
  intros Hcall Hflat Hrej _ _. by apply wrapped_call_passes_through.
Qed.

Lemma wrapped_call_is_quiet
    (orig args : value) (w : env) (r : result value) (w' : env) :
  call native orig args w = (r, w') →
  (∀ v, r = Ok v → flat v) →
  ∃ p w'',
    call native (VFun (WrappedRequest orig)) args w = (Ok (VPromise p), w'')
    ∧ quiet p
    ∧ (w'' = w' ∨ ∃ e, w'' = log (warn_caught e) w').
Proof.
  intros Hcall Hflat.
  assert (Hcatch : ∀ e w1, ∃ v,
    (console_warn "[meta-stub] Caught error from ethereum.request:" e;; fallback args) w1
      = (Ok v, log (warn_caught e) w1) ∧ plain v).
  { intros e w1.
    destruct (ShimSpec.fallback_total args (log (warn_caught e) w1)) as (v & Hv & _).
    exists v. split.
    - unfold bind, console_warn. fold (warn_caught e). by rewrite Hv.
    - by destruct (ShimSpec.fallback_shape _ _ _ _ Hv) as [-> | ->]. }
  cbn [call call_fn]. unfold async, try_catch.
  destruct orig as [| | | | | | | |g|];
    try (cbn [call] in Hcall; unfold throw in Hcall; injection Hcall as <- <-;
         unfold bind at 1, throw;
         match goal with |- context [(_ ;; fallback args) ?w1] =>
           destruct (Hcatch (TypeError "originalRequest is not a function") w1)
             as (v & -> & Hv) end;
         exists (Fulfilled v), (log (warn_caught (TypeError "originalRequest is not a function")) w);
         split; [by destruct v|]; split; [done|]; right; by eexists).
  cbn [call] in Hcall. unfold bind at 1. rewrite Hcall.
  destruct r as [v|e|].
  - specialize (Hflat v eq_refl).
    destruct v as [| | | | | | | | |[x|e|]];
      try (eexists _, _; split; [reflexivity|]; split; [done|by left]).
    + destruct x; eexists _, _; (split; [reflexivity|]); (split; [done|by left]).
    + cbn [await throw].
      destruct (Hcatch e w') as (v & -> & Hv).
      exists (Fulfilled v), (log (warn_caught e) w').
      split; [by destruct v|]. split; [done|]. right. by eexists.
  - destruct (Hcatch e w') as (v & -> & Hv).
    exists (Fulfilled v), (log (warn_caught e) w').
    split; [by destruct v|]. split; [done|]. right. by eexists.
  - pose proof (ShimSpec.sync_call_fn native g args w) as Hs.
    by rewrite Hcall in Hs.
Qed.

(** Whatever it wraps (a function that answers, throws, rejects or hangs, or
    a value that is no function at all), the wrapper returns a promise and
    that promise never rejects: it is pending, or fulfilled with a value
    that is not a promise. The console holds what the wrapped call left,
    plus at most one warning. *)
Theorem wrapper_never_raises
    (orig args : value) (w : env) (r : result value) (w' : env) :
  call native orig args w = (r, w') →
  (∀ v, r = Ok v → flat v) →
  ∃ p w'',
    call native (VFun (WrappedRequest orig)) args w = (Ok (VPromise p), w'')
    ∧ quiet p
    ∧ (w'' = w' ∨ ∃ e, w'' = log (warn_caught e) w').
Proof. apply wrapped_call_is_quiet. Qed.

(** Wrapping a wrapper changes nothing that can be observed: the doubly
    wrapped request returns the same promise and leaves the same console as
    the singly wrapped one. *)
Theorem rewrapping_is_redundant
    (orig args : value) (w : env) (r : result value) (w' : env) :
  call native orig args w = (r, w') →
  (∀ v, r = Ok v → flat v) →
  call native (VFun (WrappedRequest (VFun (WrappedRequest orig)))) args w
  = call native (VFun (WrappedRequest orig)) args w.
Proof.
  intros Hcall Hflat.
  destruct (wrapped_call_is_quiet orig args w r w' Hcall Hflat) as (p & w'' & Hw & Hq & _).
  cbn [call] in Hw. rewrite (wrapped_call_passes_through _ args w (VPromise p) w'' Hw).
  - cbn [call]. by rewrite Hw.
  - destruct p as [v| |]; [|done|done]. by destruct v.
  - intros e [= ->]. destruct Hq.
Qed.

(** Wrapping touches one property only: after the setup over a provider
    with a [request] function, every other property of the provider reads
    as before, and the console is as before. *)
Theorem wrapping_keeps_other_properties
    (props : gmap string value) (f : fn) (out : list entry) :
  props !! "request" = Some (VFun f) →
  ∃ props',
    setupMetaMaskStub native (Env (Some (VObj props)) out)
      = (Ok tt, Env (Some (VObj props')) out)
    ∧ dom props' = dom props
    ∧ (∀ k w, k ≠ "request" →
         get_prop (VObj props') k w = get_prop (VObj props) k w).
Proof.
  intros Hreq. eexists. split; [by apply ShimSpec.setup_wraps|]. split.
  - rewrite dom_insert_L. apply subseteq_union_1_L, singleton_subseteq_l.
    by apply elem_of_dom_2 in Hreq.
  - intros k w Hk. cbn [get_prop]. by rewrite lookup_insert_ne.
Qed.

(** A truthy [request] that cannot be bound (its [bind] is not a function:
    a string, a number, [true], an array, a plain object) makes the
    installation throw inside its [try]: the provider stays exactly as it
    was and the console gets one warning with the TypeError. *)
Theorem non_callable_request_is_left_alone
    (props : gmap string value) (req bound : value) (out : list entry) :
  props !! "request" = Some req →
  truthy req = true →
  (∀ w, get_prop req "bind" w = (Ok bound, w)) →
  (∀ f, bound ≠ VFun f) →
  setupMetaMaskStub native (Env (Some (VObj props)) out)
  = (Ok tt, Env (Some (VObj props))
              (out ++ [warn_setup_failed (TypeError "not a function")])).
Proof.
  intros Hreq Ht Hb Hnf.
  unfold setupMetaMaskStub, try_catch, install, bind, read_ethereum.
  cbn [window truthy negb get_prop ret]. rewrite Hreq.
  cbn [default from_option id]. rewrite Ht. cbn [window get_prop ret].
  rewrite Hreq. cbn [default from_option id]. rewrite Hb. cbn [window].
  destruct bound; try reflexivity. by destruct (Hnf f).
Qed.


Lemma stub_request_answer (args : value) (w : env) :
  ∃ v, call_fn native StubRequest args w
         = (Ok (VPromise (Fulfilled v)), log (warn_no_metamask args) w)
       ∧ (v = VArr [] ∨ v = VNull).
Proof.
  destruct (ShimSpec.fallback_total args (log (warn_no_metamask args) w)) as (v & Hv & _).
  exists v. pose proof (ShimSpec.fallback_shape _ _ _ _ Hv) as Hs. split; [|done].
  cbn [call_fn]. unfold async, bind, console_warn. fold (warn_no_metamask args).
  rewrite Hv. by destruct Hs as [-> | ->].
Qed.

(** Running the setup a second time after it installed the stub wraps the
    stub's own request. Nothing more is logged by the second run, and the
    wrapped stub answers every call exactly as the stub does. *)
Theorem second_setup_wraps_the_stub (eth : value) (out : list entry) :
  truthy eth = false →
  ∃ w1 w2 provider,
    setupMetaMaskStub native (Env (Some eth) out) = (Ok tt, w1)
    ∧ setupMetaMaskStub native w1 = (Ok tt, w2)
    ∧ window w2 = Some provider
    ∧ console w2 = out ++ [info_installed]
    ∧ (∀ w, get_prop provider "request" w
            = (Ok (VFun (WrappedRequest (VFun StubRequest))), w))
    ∧ (∀ k w, k ≠ "request" → get_prop provider k w = get_prop stub k w)
    ∧ (∀ args w,
         call native (VFun (WrappedRequest (VFun StubRequest))) args w
         = call native (VFun StubRequest) args w).
Proof.
  intros Hf.
  assert (H1 : setupMetaMaskStub native (Env (Some eth) out)
               = (Ok tt, Env (Some stub) (out ++ [info_installed]))).
  { unfold setupMetaMaskStub, try_catch, install, bind, read_ethereum; cbn.
    rewrite Hf. reflexivity. }
  match eval unfold stub in stub with
  | VObj ?m =>
      pose proof (ShimSpec.setup_wraps native m StubRequest (out ++ [info_installed]))
        as H2
  end.
  specialize (H2 ltac:(vm_compute; reflexivity)).
  eexists _, _, _. split; [exact H1|]. split; [exact H2|].
  split; [reflexivity|]. split; [reflexivity|]. split; [|split].
  - intros w. cbn [get_prop]. by rewrite lookup_insert_eq.
  - intros k w Hk. unfold stub. cbn [get_prop]. by rewrite lookup_insert_ne.
  - intros args w. destruct (stub_request_answer args w) as (v & Hv & Hs).
    rewrite (wrapped_call_passes_through StubRequest args w _ _ Hv).
    + cbn [call settlement_of]. by rewrite Hv.
    + by destruct Hs as [-> | ->].
    + done.
Qed.

(** Running the setup twice over a provider with a [request] function
    leaves that function under two wrappers, logs nothing, and keeps every
    other property of the provider. *)
Theorem second_setup_wraps_again
    (props : gmap string value) (f : fn) (out : list entry) :
  props !! "request" = Some (VFun f) →
  ∃ w1 props2,
    setupMetaMaskStub native (Env (Some (VObj props)) out) = (Ok tt, w1)
    ∧ setupMetaMaskStub native w1 = (Ok tt, Env (Some (VObj props2)) out)
    ∧ props2 !! "request"
      = Some (VFun (WrappedRequest (VFun (WrappedRequest (VFun f)))))
    ∧ (∀ k, k ≠ "request" → props2 !! k = props !! k).
Proof.
  intros Hreq. eexists _, _.
  split; [by apply ShimSpec.setup_wraps|].
  split; [apply ShimSpec.setup_wraps; by rewrite lookup_insert_eq|].
  split; [by rewrite lookup_insert_eq|].
  intros k Hk. by rewrite !lookup_insert_ne.
Qed.

(** The stub the setup installs when there is no provider: [isMetaMask]
    reads [false], and [on] and [removeListener] are functions that take
    any argument, return [undefined], log nothing and change nothing. *)
Theorem stub_listeners_do_nothing (eth : value) (out : list entry) (name : string) :
  truthy eth = false →
  name = "on" ∨ name = "removeListener" →
  ∃ w1 provider,
    setupMetaMaskStub native (Env (Some eth) out) = (Ok tt, w1)
    ∧ window w1 = Some provider
    ∧ (∀ w, get_prop provider "isMetaMask" w = (Ok (VBool false), w))
    ∧ ∃ listener,
        (∀ w, get_prop provider name w = (Ok (VFun listener), w))
        ∧ (∀ arg w, call native (VFun listener) arg w = (Ok VUndefined, w)).
Proof.
  intros Hf Hn.
  assert (H1 : setupMetaMaskStub native (Env (Some eth) out)
               = (Ok tt, Env (Some stub) (out ++ [info_installed]))).
  { unfold setupMetaMaskStub, try_catch, install, bind, read_ethereum; cbn.
    rewrite Hf. reflexivity. }
  eexists _, _. split; [exact H1|]. split; [reflexivity|].
  split; [by intros w|].
  destruct Hn as [-> | ->].
  - exists StubOn. split; by intros.
  - exists StubRemoveListener. split; by intros.
Qed.

Lemma caught_keeps_window (text : string) (e arg : value) (w : env) :
  window ((console_warn text e;; fallback arg) w).2 = window w.
Proof.
  unfold bind, console_warn.
  destruct (ShimSpec.fallback_total arg (log (Entry LWarn text (Some e)) w)) as (v & -> & _).
  reflexivity.
Qed.

Lemma async_keeps_window (body : M value) (w : env) :
  window (body w).2 = window w → window (async body w).2 = window w.
Proof.
  unfold async. by destruct (body w) as [[[]|e|] w1].
Qed.

Lemma await_keeps_env (v : value) (w : env) : (await v w).2 = w.
Proof. by destruct v as [| | | | | | | | |[x|e|]]. Qed.

(** No call the shim makes or installs assigns [window.ethereum]. *)
Fixpoint call_fn_keeps_window (f : fn) (arg : value) (w : env) {struct f} :
  window (call_fn native f arg w).2 = window w.
Proof.
  destruct f as [id| | | |orig|g]; cbn [call_fn]; try reflexivity.
  - unfold call_native. by destruct (native id arg).
  - apply async_keeps_window, caught_keeps_window.
  - apply async_keeps_window. unfold try_catch, bind at 1.
    destruct orig as [| | | | | | | |g|];
      try (unfold throw; apply caught_keeps_window).
    pose proof (call_fn_keeps_window g arg w) as IH.
    destruct (call_fn native g arg w) as [[v|e|] w1]; cbn [snd] in IH.
    + pose proof (await_keeps_env v w1) as Ha.
      destruct (await v w1) as [[x|e|] w2]; cbn [snd] in Ha; subst w2;
        [exact IH | by rewrite caught_keeps_window | exact IH].
    + by rewrite caught_keeps_window.
    + exact IH.
Qed.

Lemma call_keeps_window (v arg : value) (w : env) :
  window (call native v arg w).2 = window w.
Proof. destruct v; try reflexivity. apply call_fn_keeps_window. Qed.

(** The setup never puts the stub, or anything else, in the place of a
    provider that is there: afterwards [window.ethereum] is the provider as
    it was, or the same object with its [request] replaced by a wrapper. *)
Theorem existing_provider_is_never_replaced (eth : value) (out : list entry) :
  truthy eth = true →
  window (setupMetaMaskStub native (Env (Some eth) out)).2 = Some eth
  ∨ ∃ props orig,
      eth = VObj props
      ∧ window (setupMetaMaskStub native (Env (Some eth) out)).2
        = Some (VObj (<["request" := VFun (WrappedRequest orig)]> props)).
Proof.
  intros Ht.
  cut (∃ o, window (setupMetaMaskStub native (Env (Some eth) out)).2 = o
            ∧ (o = Some eth
               ∨ ∃ props orig, eth = VObj props
                   ∧ o = Some (VObj (<["request" := VFun (WrappedRequest orig)]> props)))).
  { intros (o & -> & [-> | (props & orig & -> & ->)]); [by left|].
    right. by exists props, orig. }
  assert (Hg : ∀ w, ∃ req, get_prop eth "request" w = (Ok req, w)).
  { intros w. destruct eth; try discriminate Ht; by eexists. }
  unfold setupMetaMaskStub, try_catch, install, bind, read_ethereum.
  cbn [window]. rewrite Ht. cbn [negb window].
  destruct (Hg (Env (Some eth) out)) as [req Hreq]. rewrite Hreq.
  destruct (truthy req) eqn:Hr; [|eexists; split; [reflexivity|by left]].
  cbn [window]. rewrite Hreq.
  destruct (get_prop req "bind" (Env (Some eth) out)) as [[b|e|] w1] eqn:Hb.
  2: { destruct req; try discriminate Hr; cbn in Hb; discriminate Hb. }
  2: { pose proof (ShimSpec.sync_get_prop req "bind" (Env (Some eth) out)) as Hs.
       by rewrite Hb in Hs. }
  assert (w1 = Env (Some eth) out) as ->.
  { destruct req as [| | | | | | | |g|]; cbn in Hb;
      try (by injection Hb); discriminate Hb. }
  cbn [window].
  pose proof (call_keeps_window b eth (Env (Some eth) out)) as Hw.
  destruct (call native b eth (Env (Some eth) out)) as [[orig|e|] w2];
    cbn [snd window] in Hw.
  - unfold assign_request, bind, read_ethereum, write_ethereum. rewrite Hw.
    destruct eth as [| | | | | | |props| |];
      try (eexists; split; [cbn; exact Hw|by left]).
    rewrite Hw. eexists. split; [reflexivity|]. right. by exists props, orig.
  - eexists. split; [cbn; exact Hw|by left].
  - eexists. split; [cbn; exact Hw|by left].
Qed.

End WithHost.

(** *** The laws at work on the sample environments *)

Lemma wrapper_is_transparent_witness :
  call_fn sample_host (Native 2) chain_request (Env None []) = (Ok VNull, Env None [])
  ∧ flat VNull
  ∧ (∀ e, VNull ≠ VPromise (Rejected e))
  ∧ ¬ thenable VNull
  ∧ (∀ x, VNull = VPromise (Fulfilled x) → ¬ thenable x)
  ∧ call sample_host (VFun (WrappedRequest (VFun (Native 2)))) chain_request (Env None [])
    = (Ok (VPromise (Fulfilled VNull)), Env None []).
Proof.
  assert (H1 : call_fn sample_host (Native 2) chain_request (Env None [])
               = (Ok VNull, Env None [])) by reflexivity.
  assert (H2 : flat VNull) by exact I.
  assert (H3 : ∀ e, VNull ≠ VPromise (Rejected e)) by discriminate.
  assert (H4 : ¬ thenable VNull) by (intros (props & g & Hv & _); discriminate Hv).
  assert (H5 : ∀ x, VNull = VPromise (Fulfilled x) → ¬ thenable x) by discriminate.
  split; [exact H1|]. split; [exact H2|]. split; [exact H3|].
  split; [exact H4|]. split; [exact H5|].
  exact (wrapper_is_transparent sample_host _ _ _ _ _ H1 H2 H3 H4 H5).
Defined.

Lemma wrapper_never_raises_witness :
  call sample_host (VFun (Native 0)) accounts_request (Env None [])
    = (Thrown (VStr "User rejected the request"), Env None [])
  ∧ ∃ p w'',
      call sample_host (VFun (WrappedRequest (VFun (Native 0)))) accounts_request (Env None [])
        = (Ok (VPromise p), w'')
      ∧ quiet p.
Proof.
  assert (H1 : call sample_host (VFun (Native 0)) accounts_request (Env None [])
               = (Thrown (VStr "User rejected the request"), Env None []))
    by reflexivity.
  split; [exact H1|].
  destruct (wrapper_never_raises sample_host _ _ _ _ _ H1 ltac:(discriminate))
    as (p & w'' & Hc & Hq & _).
  exists p, w''. split; [exact Hc | exact Hq].
Defined.

Lemma rewrapping_is_redundant_witness :
  call sample_host (VFun (Native 1)) chain_request (Env None [])
    = (Ok (VPromise (Rejected (VStr "Failed to connect to MetaMask"))), Env None [])
  ∧ call sample_host
      (VFun (WrappedRequest (VFun (WrappedRequest (VFun (Native 1))))))
      chain_request (Env None [])
    = call sample_host (VFun (WrappedRequest (VFun (Native 1)))) chain_request (Env None []).
Proof.
  assert (H1 : call sample_host (VFun (Native 1)) chain_request (Env None [])
    = (Ok (VPromise (Rejected (VStr "Failed to connect to MetaMask"))), Env None []))
    by reflexivity.
  split; [exact H1|].
  refine (rewrapping_is_redundant sample_host _ _ _ _ _ H1 _).
  intros v [= <-]. exact I.
Defined.

Lemma wrapping_keeps_other_properties_witness :
  working_provider !! "request" = Some (VFun (Native 2))
  ∧ ∃ props',
      setupMetaMaskStub sample_host (Env (Some (VObj working_provider)) [])
        = (Ok tt, Env (Some (VObj props')) [])
      ∧ dom props' = dom working_provider.
Proof.
  assert (H : working_provider !! "request" = Some (VFun (Native 2)))
    by (vm_compute; reflexivity).
  split; [exact H|].
  destruct (wrapping_keeps_other_properties sample_host _ _ [] H) as (props' & H1 & H2 & _).
  exists props'. split; [exact H1 | exact H2].
Defined.

Lemma non_callable_request_is_left_alone_witness :
  ((<["request" := VStr "soon"]> ∅ : gmap string value) !! "request" = Some (VStr "soon"))
  ∧ truthy (VStr "soon") = true
  ∧ (∀ w, get_prop (VStr "soon") "bind" w = (Ok VUndefined, w))
  ∧ (∀ f, VUndefined ≠ VFun f)
  ∧ setupMetaMaskStub sample_host (Env (Some broken_provider) [])
    = (Ok tt, Env (Some broken_provider)
                ([] ++ [warn_setup_failed (TypeError "not a function")])).
Proof.
  assert (H1 : (<["request" := VStr "soon"]> ∅ : gmap string value) !! "request"
               = Some (VStr "soon")) by (vm_compute; reflexivity).
  assert (H2 : truthy (VStr "soon") = true) by reflexivity.
  assert (H3 : ∀ w, get_prop (VStr "soon") "bind" w = (Ok VUndefined, w))
    by (intros w; reflexivity).
  assert (H4 : ∀ f, VUndefined ≠ VFun f) by discriminate.
  split; [exact H1|]. split; [exact H2|]. split; [exact H3|]. split; [exact H4|].
  exact (non_callable_request_is_left_alone sample_host _ _ _ [] H1 H2 H3 H4).
Defined.

Lemma second_setup_wraps_the_stub_witness :
  truthy VNull = false
  ∧ ∃ w1 w2,
      setupMetaMaskStub sample_host (Env (Some VNull) []) = (Ok tt, w1)
      ∧ setupMetaMaskStub sample_host w1 = (Ok tt, w2)
      ∧ console w2 = [] ++ [info_installed].
Proof.
  split; [reflexivity|].
  destruct (second_setup_wraps_the_stub sample_host VNull [] eq_refl)
    as (w1 & w2 & provider & H1 & H2 & _ & H4 & _).
  exists w1, w2. split; [exact H1|]. split; [exact H2 | exact H4].
Defined.

Lemma second_setup_wraps_again_witness :
  working_provider !! "request" = Some (VFun (Native 2))
  ∧ ∃ w1 props2,
      setupMetaMaskStub sample_host (Env (Some (VObj working_provider)) []) = (Ok tt, w1)
      ∧ setupMetaMaskStub sample_host w1 = (Ok tt, Env (Some (VObj props2)) [])
      ∧ props2 !! "request"
        = Some (VFun (WrappedRequest (VFun (WrappedRequest (VFun (Native 2)))))).
Proof.
  assert (H : working_provider !! "request" = Some (VFun (Native 2)))
    by (vm_compute; reflexivity).
  split; [exact H|].
  destruct (second_setup_wraps_again sample_host _ _ [] H) as (w1 & props2 & H1 & H2 & H3 & _).
  exists w1, props2. split; [exact H1|]. split; [exact H2 | exact H3].
Defined.

Lemma stub_listeners_do_nothing_witness :
  truthy VUndefined = false
  ∧ ("removeListener" = "on" ∨ "removeListener" = "removeListener")
  ∧ ∃ w1 provider,
      setupMetaMaskStub sample_host (Env (Some VUndefined) []) = (Ok tt, w1)
      ∧ window w1 = Some provider.
Proof.
  assert (H : "removeListener" = "on" ∨ "removeListener" = "removeListener")
    by (right; reflexivity).
  split; [reflexivity|]. split; [exact H|].
  destruct (stub_listeners_do_nothing sample_host VUndefined [] _ eq_refl H)
    as (w1 & provider & H1 & H2 & _).
  exists w1, provider. split; [exact H1 | exact H2].
Defined.

Lemma existing_provider_is_never_replaced_witness :
  truthy silent_provider = true
  ∧ (window (setupMetaMaskStub sample_host (Env (Some silent_provider) [])).2
       = Some silent_provider
     ∨ ∃ props orig,
         silent_provider = VObj props
         ∧ window (setupMetaMaskStub sample_host (Env (Some silent_provider) [])).2
           = Some (VObj (<["request" := VFun (WrappedRequest orig)]> props))).
Proof.
  split; [reflexivity|].
  exact (existing_provider_is_never_replaced sample_host silent_provider [] eq_refl).
Defined.

End ShimLaws.

(* ====================================================================== *)
(** ** Further properties of the gallery view *)
(* ====================================================================== *)

Module GalleryLaws.
Import Gallery.

Lemma run_handler_grows (hd : handler) (h : list (gmap string val)) (q : option val) :
  h `prefix_of` (run_handler hd h q).1.1.
Proof. destruct hd; cbn; [done | by apply prefix_app_r | done]. Qed.

Lemma bubble_grows (path : list handler) (h : list (gmap string val)) (q : option val) :
  h `prefix_of` (bubble path h q).1.
Proof.
  revert h q. induction path as [|hd path IH]; intros h q; [done|].
  cbn [bubble]. pose proof (run_handler_grows hd h q) as Hg.
  destruct (run_handler hd h q) as [[h1 q1] stop]. cbn [fst] in Hg.
  destruct stop; [done|]. etrans; [exact Hg | apply IH].
Qed.

Lemma alloc_all_grows (os : list (gmap string val)) (h : list (gmap string val)) :
  h `prefix_of` (alloc_all os h).1.
Proof.
  revert h. induction os as [|o os IH]; intros h; [done|].
  cbn [alloc_all alloc]. specialize (IH (h ++ [o])).
  destruct (alloc_all os (h ++ [o])) as [h2 rs]. cbn [fst] in *.
  etrans; [by apply prefix_app_r | exact IH].
Qed.

Lemma App_grows (h : list (gmap string val)) (v : val) : h `prefix_of` (App h v).1.
Proof.
  unfold App. pose proof (alloc_all_grows items h) as Hg.
  by destruct (alloc_all items h).
Qed.

Lemma step_grows (p : page) (ev : event) : heap p `prefix_of` heap (step p ev).
Proof.
  destruct ev as [t|i]; unfold step.
  - pose proof (bubble_grows (propagation_path (screen p) t) (heap p) None) as Hb.
    destruct (bubble _ _ _) as [h1 [v|]]; [|done]. cbn [fst] in Hb.
    pose proof (App_grows h1 v) as Ha. destruct (App h1 v) as [h2 scr].
    cbn [fst heap] in *. by etrans.
  - by destruct (tiles (screen p) !! i).
Qed.

(** Objects are never changed or dropped: whatever a location of the heap
    holds at some point of a session, it holds after any further events,
    tile clicks, dismissals and load errors alike. *)
Theorem objects_are_never_modified
    (evs more : list event) (l : loc) (o : gmap string val) :
  heap (run evs) !! l = Some o →
  heap (run (evs ++ more)) !! l = Some o.
Proof.
  intros Hl. unfold run. rewrite foldl_app. fold (run evs).
  generalize dependent (run evs). induction more as [|ev more IH]; intros p Hl; [done|].
  cbn [foldl]. apply IH.
  destruct (step_grows p ev) as [ext ->]. by apply lookup_app_l_Some.
Qed.


(** The modal mirrors the state cell. In every reachable state the modal is
    rendered exactly when there is a selection, and a rendered modal shows
    the image path of a declared tile, with that tile's caption both as the
    text under the image and as the alternative text of the image. *)
Theorem modal_mirrors_selection (evs : list event) :
  (modal (screen (run evs)) = None ↔ selection_of (run evs) = Idle)
  ∧ (∀ o, modal (screen (run evs)) = Some o →
       ∃ i path cap,
         declared_tiles !! i = Some (path, cap)
         ∧ image_src o = Str path
         ∧ image_alt o = Str cap
         ∧ caption_text o = Str cap
         ∧ selection_of (run evs) = Viewing (Str path) (Str cap)).
Proof.
  destruct (GallerySpec.consistent_run evs) as [(h0 & Hh & Hs) Hcell].
  rewrite Hs. cbn [modal]. unfold selection_of.
  destruct Hcell as [Hn | (l & i & Hl & Hcar)].
  - rewrite Hn. cbn [modal_of truthy]. split; [done|]. intros o [=].
  - rewrite Hl. cbn [modal_of truthy]. split; [split; discriminate|].
    intros o [= <-]. cbn [image_src image_alt caption_text].
    destruct Hcar as (path & cap & Hd & Hc).
    assert (Hcar : carries (heap (run evs)) l i) by (by exists path, cap).
    destruct (GallerySpec.carries_fields _ l i path cap Hcar Hd) as [Hi Hc'].
    rewrite <- Hh, Hi, Hc'. by exists i, path, cap.
Qed.

(** Only the enlarged image is shielded. A click on the caption under the
    image travels up to the backdrop handler like a click on the backdrop
    itself and closes the modal. *)
Theorem caption_click_dismisses (evs : list event) (image caption : val) :
  selection_of (run evs) = Viewing image caption →
  selection_of (step (run evs) (Click OnCaption)) = Idle
  ∧ modal (screen (step (run evs) (Click OnCaption))) = None
  ∧ step (run evs) (Click OnCaption) = step (run evs) (Click OnBackdrop).
Proof.
  intros Hv. pose proof (GallerySpec.consistent_run evs) as Hc.
  destruct (GallerySpec.selection_viewing_cell _ _ _ Hc Hv) as [l Hl].
  rewrite (GallerySpec.step_dismiss_viewing _ OnCaption l Hc
             (or_intror (or_intror eq_refl)) Hl).
  rewrite (GallerySpec.step_dismiss_viewing _ OnBackdrop l Hc (or_introl eq_refl) Hl).
  done.
Qed.

(** Load errors compose: a second error on the same image changes nothing
    more, and errors on two images give the same page in either order.
    This holds of every page, reachable or not. *)
Theorem load_errors_are_idempotent_and_commute (p : page) (i j : nat) :
  step (step p (ImgError i)) (ImgError i) = step p (ImgError i)
  ∧ step (step p (ImgError i)) (ImgError j) = step (step p (ImgError j)) (ImgError i).
Proof.
  split.
  - unfold step. destruct (tiles (screen p) !! i) as [tl|] eqn:Hi; cbn [screen]; rewrite Hi;
      [|done]. cbn [heap fullscreenImage img_src]. by rewrite list_insert_insert_eq.
  - unfold step.
    destruct (tiles (screen p) !! i) as [ti|] eqn:Hi;
      destruct (tiles (screen p) !! j) as [tj|] eqn:Hj;
      cbn [screen]; rewrite ?Hi, ?Hj; try done.
    cbn [heap fullscreenImage img_src]. f_equal.
    destruct (decide (i = j)) as [->|Hij].
    + rewrite Hi in Hj. by injection Hj as ->.
    + by apply list_insert_insert_ne.
Qed.

Lemma fmap_lookup_ext {A B} (f g : A → B) (l : list A) (k : nat) :
  (∀ x, l !! k = Some x → f x = g x) → f <$> l !! k = g <$> l !! k.
Proof. intros H. destruct (l !! k) as [x|]; [|done]. cbn. f_equal. by apply H. Qed.

Lemma error_src_stable (p : page) (i : nat) :
  consistent p →
  (λ tl, error_src (heap p) (tile_onError tl)) <$> tiles (screen p) !! i
  = placeholder_at i.
Proof.
  destruct p as [h fs scr dom]. intros [(h0 & Hh & Hs) _].
  cbn [heap screen fullscreenImage] in Hh, Hs. subst h scr. cbn [heap screen tiles].
  unfold placeholder_at.
  destruct (decide (i < 2)) as [Hi|Hi].
  - destruct i as [|[|i]]; [| |lia].
    + cbn [item_tiles app lookup list_lookup fmap option_fmap option_map
           tile_onError error_src].
      rewrite (GallerySpec.field_past h0 items 0 _ _ eq_refl). by vm_compute.
    + cbn [item_tiles app lookup list_lookup fmap option_fmap option_map
           tile_onError error_src].
      rewrite (GallerySpec.field_past h0 items 1 _ _ eq_refl). by vm_compute.
  - rewrite lookup_app_r by (cbn; lia).
    replace (tiles (screen mount)) with (item_tiles [] ++ section_tiles) by reflexivity.
    rewrite (lookup_app_r (item_tiles [])) by (cbn; lia).
    cbn [item_tiles length]. apply fmap_lookup_ext. intros tl Htl.
    destruct (lookup_lt_is_Some_2 (drop 2 placeholder_labels) (i - 2)) as [label Hl].
    { apply lookup_lt_Some in Htl. exact Htl. }
    destruct (Forall2_lookup_lr _ _ _ _ _ _ GallerySpec.section_placeholders Htl Hl)
      as [-> | ->]; reflexivity.
Qed.

Lemma step_img_error (p : page) (i : nat) :
  consistent p →
  step p (ImgError i)
  = match placeholder_at i with
    | Some s => with_img_src p (<[i := Str s]> (img_src p))
    | None => p
    end.
Proof.
  intros Hc. rewrite <- (error_src_stable p i Hc). unfold step, with_img_src.
  by destruct (tiles (screen p) !! i).
Qed.

Lemma click_with_img_src (p : page) (t : target) (srcs : list val) :
  step (with_img_src p srcs) (Click t)
  = with_img_src (step p (Click t))
      (if rerenders p t then catalogue_srcs ++ drop 2 srcs else srcs).
Proof.
  unfold step, rerenders, with_img_src. cbn [screen heap fullscreenImage img_src].
  destruct (bubble _ _ _) as [h1 [v|]]; [|done].
  rewrite GallerySpec.App_eq. reflexivity.
Qed.

(** The placeholder of a tile does not depend on when its image fails: in
    every reachable state the error handler of tile [i] assigns the [src] it
    would assign on the freshly mounted page. *)
Theorem placeholder_is_independent_of_state (evs : list event) (i : nat) :
  img_src (step (run evs) (ImgError i)) !! i = img_src (step mount (ImgError i)) !! i.
Proof.
  rewrite (step_img_error _ i (GallerySpec.consistent_run evs)).
  rewrite (step_img_error mount i GallerySpec.consistent_mount).
  pose proof (GallerySpec.img_src_length evs) as Hlen.
  destruct (placeholder_at i) as [s|] eqn:Hp.
  - assert (Hi : i < length declared_tiles).
    { unfold placeholder_at in Hp. destruct (tiles (screen mount) !! i) eqn:E; [|done].
      apply lookup_lt_Some in E. exact E. }
    cbn [with_img_src img_src].
    rewrite !list_lookup_insert_eq; [done| |]; [exact Hi | by rewrite Hlen].
  - assert (Hi : length declared_tiles ≤ i).
    { unfold placeholder_at in Hp. destruct (tiles (screen mount) !! i) eqn:E; [done|].
      apply lookup_ge_None in E. exact E. }
    rewrite !(proj2 (lookup_ge_None _ _)); [done| |]; [exact Hi | by rewrite Hlen].
Qed.

(** The order of a load error and a click. For a section tile the two may
    come in either order: the page is the same afterwards. For a catalogue
    tile the order shows. A click that selects a tile makes [App] run
    again, which mounts the catalogue images anew: after the error and then
    the click the image has its own path again, whereas after the click and
    then the error it has the placeholder. *)
Theorem order_of_load_error_and_click (evs : list event) (i : nat) :
  (2 ≤ i →
   ∀ t, run (evs ++ [ImgError i; Click t]) = run (evs ++ [Click t; ImgError i]))
  ∧ (i < 2 →
     ∀ j path cap pj cj,
       declared_tiles !! i = Some (path, cap) →
       declared_tiles !! j = Some (pj, cj) →
       img_src (run (evs ++ [ImgError i; Click (OnTile j)])) !! i = Some (Str path)
       ∧ ∃ s, placeholder_at i = Some s
              ∧ s ≠ path
              ∧ img_src (run (evs ++ [Click (OnTile j); ImgError i])) !! i
                = Some (Str s)).
Proof.
  pose proof (GallerySpec.consistent_run evs) as Hc. split.
  - intros Hi t. unfold run. rewrite !foldl_app. cbn [foldl]. fold (run evs).
    rewrite (step_img_error _ i Hc).
    rewrite (step_img_error _ i (GallerySpec.consistent_step _ (Click t) Hc)).
    destruct (placeholder_at i) as [s|]; [|reflexivity].
    rewrite click_with_img_src, GallerySpec.click_img_src.
    destruct (rerenders (run evs) t); [|reflexivity].
    unfold with_img_src. f_equal.
    rewrite drop_insert_ge by exact Hi.
    by rewrite insert_app_r_alt by exact Hi.
  - intros Hi j path cap pj cj Hdi Hdj.
    unfold run. rewrite !foldl_app. cbn [foldl]. fold (run evs). split.
    + destruct (GallerySpec.step_click_tile _ j pj cj
                  (GallerySpec.consistent_step _ (ImgError i) Hc) Hdj)
        as (h1 & l & -> & _).
      cbn [img_src].
      destruct i as [|[|i]]; [| |lia]; injection Hdi as <- _; reflexivity.
    + pose proof (GallerySpec.consistent_step _ (Click (OnTile j)) Hc) as Hc'.
      rewrite (step_img_error _ i Hc').
      assert (Hlen : i < length (img_src (step (run evs) (Click (OnTile j))))).
      { pose proof (GallerySpec.img_src_length (evs ++ [Click (OnTile j)])) as Hl.
        unfold run in Hl. rewrite foldl_app in Hl. cbn [foldl] in Hl.
        fold (run evs) in Hl. rewrite Hl. cbn. lia. }
      assert (Hp : ∃ label, placeholder_at i = Some (data_uri (svg_600x800 label))).
      { destruct i as [|[|i]]; [exists "Image 1" | exists "Image 2" | lia];
          vm_compute; reflexivity. }
      destruct Hp as [label Hp]. rewrite Hp. exists (data_uri (svg_600x800 label)).
      split; [reflexivity|]. split.
      * destruct i as [|[|i]]; [| |lia]; injection Hdi as <- _; discriminate.
      * cbn [with_img_src img_src]. by apply list_lookup_insert_eq.
Qed.

Lemma hex_digit_unreserved (k : nat) : unreserved (hex_digit k) = true.
Proof. do 16 (destruct k as [|k]; [reflexivity|]). by destruct k. Qed.

Lemma append_assoc (a b c : string) : (a +:+ b) +:+ c = a +:+ b +:+ c.
Proof.
  induction a as [|x a IH]; [reflexivity|].
  change ((String x a +:+ b) +:+ c) with (String x ((a +:+ b) +:+ c)).
  by rewrite IH.
Qed.

Lemma encode_cons (c : ascii) (rest : string) :
  encodeURIComponent (String c rest)
  = (if unreserved c then String c EmptyString
     else String "%"%char
            (String (hex_digit (nat_of_ascii c / 16))
               (String (hex_digit (nat_of_ascii c mod 16)) EmptyString)))
    +:+ encodeURIComponent rest.
Proof. cbn [encodeURIComponent]. by destruct (unreserved c). Qed.

Lemma encode_app (a b : string) :
  encodeURIComponent (a +:+ b) = encodeURIComponent a +:+ encodeURIComponent b.
Proof.
  induction a as [|c a IH]; [reflexivity|].
  change (String c a +:+ b) with (String c (a +:+ b)).
  rewrite !encode_cons, IH. by rewrite append_assoc.
Qed.

(** The payload of a placeholder URI. [encodeURIComponent] writes nothing
    but unreserved characters and percent signs, so no quote, angle
    bracket, space or hash sign of the markup reaches the URI; decoding
    the escapes gives the markup back, and different markups give
    different payloads. *)
Theorem payload_is_safe_and_reversible (svg : string) :
  Forall uri_safe (list_ascii_of_string (encodeURIComponent svg))
  ∧ percent_decode (encodeURIComponent svg) = Some svg
  ∧ (∀ svg', encodeURIComponent svg = encodeURIComponent svg' → svg = svg').
Proof.
  split; [|split].
  - induction svg as [|c svg IH]; [constructor|].
    cbn [encodeURIComponent]. destruct (unreserved c) eqn:Hc.
    + constructor; [by left | exact IH].
    + cbn [list_ascii_of_string]. constructor; [by right|].
      constructor; [left; apply hex_digit_unreserved|].
      constructor; [left; apply hex_digit_unreserved | exact IH].
  - apply GallerySpec.percent_decode_encode.
  - intros svg' H. apply (f_equal percent_decode) in H.
    rewrite !GallerySpec.percent_decode_encode in H. by injection H.
Qed.

(** Encoding goes piece by piece. The URI of a placeholder is a fixed head,
    the encoded label and a fixed tail: the label's own characters are
    escaped like the rest of the markup and cannot break out of the URI. *)
Theorem payload_is_assembled_from_parts :
  (∀ a b, encodeURIComponent (a +:+ b) = encodeURIComponent a +:+ encodeURIComponent b)
  ∧ (∃ head tail, ∀ label,
       data_uri (svg_600x800 label) = head +:+ encodeURIComponent label +:+ tail)
  ∧ (∃ head tail, ∀ label,
       data_uri (svg_100x100 label) = head +:+ encodeURIComponent label +:+ tail).
Proof.
  split; [exact encode_app|]. split.
  - eexists _, _. intros label. unfold data_uri, svg_600x800.
    rewrite !encode_app, append_assoc. reflexivity.
  - eexists _, _. intros label. unfold data_uri, svg_100x100.
    rewrite !encode_app, append_assoc. reflexivity.
Qed.


Lemma starts_with_app_l (a b sub : string) :
  starts_with a sub = true → starts_with (a +:+ b) sub = true.
Proof.
  revert a. induction sub as [|c sub IH]; intros a; [done|].
  destruct a as [|x a]; [done|].
  change (String x a +:+ b) with (String x (a +:+ b)). cbn [starts_with].
  intros [Hx Hs]%andb_true_iff. by rewrite Hx, IH.
Qed.

Lemma contains_app_l (a b sub : string) :
  contains a sub = true → contains (a +:+ b) sub = true.
Proof.
  induction a as [|x a IH].
  - destruct sub; [|done]. intros _. by destruct b.
  - change (String x a +:+ b) with (String x (a +:+ b)).
    rewrite !(GallerySpec.contains_unfold (String x _)).
    intros [H | H]%orb_true_iff.
    + pose proof (starts_with_app_l (String x a) b sub H) as H'.
      change (String x a +:+ b) with (String x (a +:+ b)) in H'. by rewrite H'.
    + rewrite (IH H). apply orb_true_r.
Qed.

(** The fill colour of the placeholders is escaped twice. The templates
    already spell the hash sign of the colour as [%23], and
    [encodeURIComponent] escapes that percent sign once more: whatever the
    label, the URI carries [%2523262224], and decoding the URI gives markup
    whose fill is the text [%23262224]. The same holds for the profile
    placeholder. *)
Theorem fill_colour_is_escaped_twice (label : string) :
  Forall (λ svg,
            contains (encodeURIComponent svg) "fill%3D'%2523262224'" = true
            ∧ ∃ markup, percent_decode (encodeURIComponent svg) = Some markup
                        ∧ contains markup "fill='%23262224'" = true)
         [svg_600x800 label; svg_100x100 label; svg_profile].
Proof.
  assert (Hboth : ∀ svg,
    contains svg "fill='%23262224'" = true →
    contains (encodeURIComponent svg) "fill%3D'%2523262224'" = true →
    contains (encodeURIComponent svg) "fill%3D'%2523262224'" = true
    ∧ ∃ markup, percent_decode (encodeURIComponent svg) = Some markup
                ∧ contains markup "fill='%23262224'" = true).
  { intros svg H1 H2. split; [exact H2|]. exists svg.
    split; [apply GallerySpec.percent_decode_encode | exact H1]. }
  apply Forall_cons. split; [|apply Forall_cons; split; [|apply Forall_cons; split; [|constructor]]].
  - apply Hboth; unfold svg_600x800; rewrite ?encode_app;
      apply contains_app_l; vm_compute; reflexivity.
  - apply Hboth; unfold svg_100x100; rewrite ?encode_app;
      apply contains_app_l; vm_compute; reflexivity.
  - apply Hboth; vm_compute; reflexivity.
Qed.

Lemma string_of_nat_inj (n m : nat) : string_of_nat n = string_of_nat m → n = m.
Proof.
  unfold string_of_nat. intros H.
  apply (f_equal NilEmpty.uint_of_string) in H. rewrite !NilEmpty.usu in H.
  injection H as H. apply (f_equal Nat.of_uint) in H.
  by rewrite !DecimalNat.Unsigned.of_to in H.
Qed.

Lemma numbered_inj (prefix : string) (n m : nat) :
  prefix +:+ string_of_nat n = prefix +:+ string_of_nat m → n = m.
Proof. intros H. by apply string_of_nat_inj, (String.app_inj prefix). Qed.

(** The captions and alternative texts number the tiles of a section: two
    tiles of one section built at different positions get different
    captions and different alternative texts, whatever their files. *)
Theorem captions_number_the_tiles (i j : nat) (img img' : string) :
  i ≠ j →
  Forall (λ build : nat → string → tile,
            tile_alt (build i img) ≠ tile_alt (build j img')
            ∧ ∀ path path' cap cap',
                tile_onClick (build i img) = SetFullscreenLiteral path cap →
                tile_onClick (build j img') = SetFullscreenLiteral path' cap' →
                cap ≠ cap')
         [cat_tile; chai_tile; harvest_tile; tools_tile].
Proof.
  intros Hij.
  assert (Hne : i + 1 ≠ j + 1) by lia.
  repeat constructor; cbn [tile_alt tile_onClick].
  all: try (intros [= H]; by apply numbered_inj in H).
  all: intros path path' cap cap' [= _ <-] [= _ <-] H; by apply numbered_inj in H.
Qed.

(** *** The laws at work on concrete runs *)

Lemma objects_are_never_modified_witness :
  heap (run []) !! 1
    = Some {[ "id" := Num 2; "caption" := Str "porsche 991 poster";
              "image" := Str "images/porsche 2.jpg" ]}
  ∧ heap (run ([] ++ [Click (OnTile 3); Click OnBackdrop; ImgError 1])) !! 1
    = Some {[ "id" := Num 2; "caption" := Str "porsche 991 poster";
              "image" := Str "images/porsche 2.jpg" ]}.
Proof.
  assert (H : heap (run []) !! 1
    = Some {[ "id" := Num 2; "caption" := Str "porsche 991 poster";
              "image" := Str "images/porsche 2.jpg" ]}) by reflexivity.
  split; [exact H|].
  exact (objects_are_never_modified [] _ 1 _ H).
Defined.

Lemma modal_mirrors_selection_witness :
  (modal (screen (run [Click (OnTile 9)])) = None
   ↔ selection_of (run [Click (OnTile 9)]) = Idle).
Proof. exact (proj1 (modal_mirrors_selection [Click (OnTile 9)])). Defined.

Lemma caption_click_dismisses_witness :
  selection_of (run [Click (OnTile 16)])
    = Viewing (Str "images/Harvest Connect/Screenshot 2025-08-15 151703.png")
              (Str "Harvest Connect - Screen 3")
  ∧ selection_of (step (run [Click (OnTile 16)]) (Click OnCaption)) = Idle.
Proof.
  assert (H : selection_of (run [Click (OnTile 16)])
    = Viewing (Str "images/Harvest Connect/Screenshot 2025-08-15 151703.png")
              (Str "Harvest Connect - Screen 3")) by (vm_compute; reflexivity).
  split; [exact H|].
  exact (proj1 (caption_click_dismisses [Click (OnTile 16)] _ _ H)).
Defined.

Lemma order_of_load_error_and_click_witness :
  2 ≤ 5
  ∧ run ([Click (OnTile 0)] ++ [ImgError 5; Click OnBackdrop])
    = run ([Click (OnTile 0)] ++ [Click OnBackdrop; ImgError 5])
  ∧ 1 < 2
  ∧ declared_tiles !! 1 = Some ("images/porsche 2.jpg", "porsche 991 poster")
  ∧ declared_tiles !! 3 = Some ("images/Cat in a Box/2.png", "Cat in a Box - Design 2")
  ∧ img_src (run ([] ++ [ImgError 1; Click (OnTile 3)])) !! 1
    = Some (Str "images/porsche 2.jpg").
Proof.
  assert (H1 : 2 ≤ 5) by lia.
  assert (H2 : 1 < 2) by lia.
  assert (H3 : declared_tiles !! 1 = Some ("images/porsche 2.jpg", "porsche 991 poster"))
    by reflexivity.
  assert (H4 : declared_tiles !! 3
               = Some ("images/Cat in a Box/2.png", "Cat in a Box - Design 2"))
    by reflexivity.
  split; [exact H1|].
  split; [exact (proj1 (order_of_load_error_and_click [Click (OnTile 0)] 5) H1 OnBackdrop)|].
  split; [exact H2|]. split; [exact H3|]. split; [exact H4|].
  exact (proj1 (proj2 (order_of_load_error_and_click [] 1) H2 3 _ _ _ _ H3 H4)).
Defined.

Lemma payload_is_safe_and_reversible_witness :
  encodeURIComponent "a b" = encodeURIComponent "a b" ∧ "a b" = "a b".
Proof.
  split; [reflexivity|].
  exact (proj2 (proj2 (payload_is_safe_and_reversible "a b")) "a b" eq_refl).
Defined.

Lemma captions_number_the_tiles_witness :
  0 ≠ 1
  ∧ Forall (λ build : nat → string → tile,
              tile_alt (build 0 "1.png") ≠ tile_alt (build 1 "2.png")
              ∧ ∀ path path' cap cap',
                  tile_onClick (build 0 "1.png") = SetFullscreenLiteral path cap →
                  tile_onClick (build 1 "2.png") = SetFullscreenLiteral path' cap' →
                  cap ≠ cap')
           [cat_tile; chai_tile; harvest_tile; tools_tile].
Proof.
  assert (H : 0 ≠ 1) by lia.
  split; [exact H|].
  exact (captions_number_the_tiles 0 1 "1.png" "2.png" H).
Defined.

End GalleryLaws.
